(** * 3RVX: the hotkey descriptor [HotkeyInfo]

    A shallow embedding of [3RVX/HotkeyInfo.cpp]: the action catalog, the
    argument store with its lazily filled conversion caches, the validator
    and the renderer, followed by the properties of the descriptor. *)

From Stdlib Require Import ZArith Ascii String List Lia.
From Stdlib Require Import Floats.PrimFloat Numbers.Cyclic.Int63.Uint63.
From stdpp Require Import base option list gmap strings.

Local Open Scope Z_scope.

(** ** The C++ standard library, as far as the descriptor uses it

    A wide string ([std::wstring]) is a [string] here: its characters are
    8-bit instead of 16-bit, which no function below tells apart. *)

Module Std.

(** The two exceptions [std::stoi] and [std::stod] throw. *)
Inductive exception : Set :=
| invalid_argument
| out_of_range.

Definition INT_MIN : Z := - 2 ^ 31.
Definition INT_MAX : Z := 2 ^ 31 - 1.
Definition UINT_MODULUS : Z := 2 ^ 32.

(** [iswspace] in the "C" locale: space and the controls 9..13. *)
Definition iswspace (c : ascii) : bool :=
  let n := Z.of_nat (nat_of_ascii c) in
  (n =? 32) || ((9 <=? n) && (n <=? 13)).

Fixpoint skip_space (s : string) : string :=
  match s with
  | String c rest => if iswspace c then skip_space rest else s
  | EmptyString => s
  end.

(** Value of a character as a digit: 0-9, then letters of either case
    from 10 on. *)
Definition digit_value (c : ascii) : option Z :=
  let n := Z.of_nat (nat_of_ascii c) in
  if (48 <=? n) && (n <=? 57) then Some (n - 48)
  else if (97 <=? n) && (n <=? 122) then Some (n - 97 + 10)
  else if (65 <=? n) && (n <=? 90) then Some (n - 65 + 10)
  else None.

Definition digit_in (base : Z) (c : ascii) : option Z :=
  match digit_value c with
  | Some d => if d <? base then Some d else None
  | None => None
  end.

(** The longest run of digits of [base] at the head of [s], folded into
    [acc]; [seen] records whether a digit was consumed. *)
Fixpoint digits (base : Z) (s : string) (seen : bool) (acc : Z) : bool * Z :=
  match s with
  | String c rest =>
      match digit_in base c with
      | Some d => digits base rest true (acc * base + d)
      | None => (seen, acc)
      end
  | EmptyString => (seen, acc)
  end.

Definition is_char (n : nat) (c : ascii) : bool := Nat.eqb (nat_of_ascii c) n.

(** An optional sign: the factor and what follows it. *)
Definition sign (s : string) : Z * string :=
  match s with
  | String c rest =>
      if is_char 45 c then (-1, rest)
      else if is_char 43 c then (1, rest)
      else (1, s)
  | EmptyString => (1, s)
  end.

(** In base 16 a [0x] or [0X] is skipped when a hexadecimal digit follows
    it; otherwise the [0] is itself the number. *)
Definition hex_prefix (base : Z) (s : string) : string :=
  match s with
  | String z (String x (String d rest)) =>
      if (base =? 16) && is_char 48 z && (is_char 120 x || is_char 88 x)
         && bool_decide (is_Some (digit_in 16 d))
      then String d rest
      else s
  | _ => s
  end.

(** [std::stoi(str, nullptr, base)] for a base from 2 to 36: [wcstol]
    skips white space, reads a sign and the longest run of digits, and
    ignores what follows; [stoi] throws [invalid_argument] when no digit
    was read and [out_of_range] when the value is not an [int]. *)
Definition stoi (str : string) (base : Z) : exception + Z :=
  let (sg, body) := sign (skip_space str) in
  let (seen, magnitude) := digits base (hex_prefix base body) false 0 in
  if negb seen then inl invalid_argument
  else
    let value := sg * magnitude in
    if (value <? INT_MIN) || (INT_MAX <? value) then inl out_of_range
    else inr value.

(** [std::unordered_map]: [count] and [operator[]], which inserts a
    value-initialised entry for a missing key. *)
Definition count {V} (m : gmap N V) (k : N) : Z :=
  match m !! k with
  | Some _ => 1
  | None => 0
  end.

Definition index {V} (zero : V) (m : gmap N V) (k : N) : V * gmap N V :=
  match m !! k with
  | Some v => (v, m)
  | None => (zero, <[k := zero]> m)
  end.

End Std.

(** ** The action catalog *)

Definition ActionNames : list string :=
  [ "Increase Volume";
    "Decrease Volume";
    "Set Volume";
    "Mute";
    "Show Volume Slider";
    "Eject Drive";
    "Eject Last Disk";
    "Increase Brightness";
    "Decrease Brightness";
    "Set Brightness";
    "Brightness Slider";
    "Media Key";
    "Virtual Key";
    "Run";
    "Enable/Disable OSD";
    "Open Settings Dialog";
    "Exit 3RVX" ].

Definition MediaKeyNames : list string :=
  [ "Play/Pause"; "Stop"; "Next"; "Previous" ].

(** The Windows virtual-key codes VK_MEDIA_PLAY_PAUSE, VK_MEDIA_STOP,
    VK_MEDIA_NEXT_TRACK and VK_MEDIA_PREV_TRACK. *)
Definition MediaKeyVKs : list Z :=
  [ 179; 178; 176; 177 ].

(** [ActionNames.size()], a [size_t]. *)
Definition ActionNames_size : Z := Z.of_nat (length ActionNames).

(** Modelled from the spec: the enumeration [HotkeyActions] of
    [HotkeyInfo.h], which is not among the sources. Its enumerators are
    the indices of [ActionNames], in the order the spec lists them. A C++
    unscoped enumerator is compared with the [int] field [action] as an
    integer, so the enumerators are integers here. *)
Definition IncreaseVolume : Z := 0.
Definition DecreaseVolume : Z := 1.
Definition SetVolume : Z := 2.
Definition Mute : Z := 3.
Definition VolumeSlider : Z := 4.
Definition EjectDrive : Z := 5.
Definition EjectLastDisk : Z := 6.
Definition IncreaseBrightness : Z := 7.
Definition DecreaseBrightness : Z := 8.
Definition SetBrightness : Z := 9.
Definition BrightnessSlider : Z := 10.
Definition MediaKey : Z := 11.
Definition VirtualKey : Z := 12.
Definition Run : Z := 13.
Definition ToggleOSD : Z := 14.
Definition OpenSettings : Z := 15.
Definition Exit : Z := 16.

(** Modelled from the spec: the enumeration [VolumeKeyArgTypes] of
    [HotkeyInfo.h], with the values the spec gives (0, 1, 2). The cast
    [(VolumeKeyArgTypes) arg1] keeps the integer, so a value of the
    enumeration is its integer. *)
Definition VolumeKeyArgTypes : Type := Z.
Definition NoArgs : VolumeKeyArgTypes := 0.
Definition Units : VolumeKeyArgTypes := 1.
Definition Percent : VolumeKeyArgTypes := 2.

(** ** The descriptor *)

(** The fields of [class HotkeyInfo]. [keyCombination] and [action] are
    [int]s, argument indices are [unsigned int]s. *)
Record HotkeyInfo : Type := mkHotkeyInfo {
  keyCombination : Z;
  action : Z;
  args : list string;
  _intArgs : gmap N Z;
  _doubleArgs : gmap N float;
  _cache : bool
}.

Definition set_args (a : list string) (h : HotkeyInfo) : HotkeyInfo :=
  mkHotkeyInfo (keyCombination h) (action h) a
    (_intArgs h) (_doubleArgs h) (_cache h).

Definition set_intArgs (m : gmap N Z) (h : HotkeyInfo) : HotkeyInfo :=
  mkHotkeyInfo (keyCombination h) (action h) (args h)
    m (_doubleArgs h) (_cache h).

Definition set_doubleArgs (m : gmap N float) (h : HotkeyInfo) : HotkeyInfo :=
  mkHotkeyInfo (keyCombination h) (action h) (args h)
    (_intArgs h) m (_cache h).

Definition set_cache (b : bool) (h : HotkeyInfo) : HotkeyInfo :=
  mkHotkeyInfo (keyCombination h) (action h) (args h)
    (_intArgs h) (_doubleArgs h) b.

(** A descriptor as the settings loader leaves it: constructed (cache
    off, caches empty), then the three public fields assigned. *)
Definition configured (kc act : Z) (a : list string) : HotkeyInfo :=
  mkHotkeyInfo kc act a ∅ ∅ false.

(** ** Effects

    A member function runs on the descriptor it is called on and on the
    log sink. It may change both, and it has no result ([None]) where the
    C++ has undefined behaviour: indexing [args] out of range. *)

Record World : Type := mkWorld {
  this : HotkeyInfo;
  clog : list string
}.

Definition M (A : Type) : Type := World -> option (A * World).

Definition ret {A} (a : A) : M A := fun w => Some (a, w).

Definition bind {A B} (c : M A) (k : A -> M B) : M B :=
  fun w =>
    match c w with
    | Some (a, w') => k a w'
    | None => None
    end.

Definition undefined {A} : M A := fun _ => None.

Definition gets {A} (f : HotkeyInfo -> A) : M A :=
  fun w => Some (f (this w), w).

Definition modify (f : HotkeyInfo -> HotkeyInfo) : M unit :=
  fun w => Some (tt, mkWorld (f (this w)) (clog w)).

Definition emit (line : string) : M unit :=
  fun w => Some (tt, mkWorld (this w) (clog w ++ [line])).

Notation "x <- c ;; k" := (bind c (fun x => k))
  (at level 100, c at next level, right associativity).
Notation "c ;; k" := (bind c (fun _ => k))
  (at level 100, right associativity).

(** [args[argIdx]] on the vector. *)
Definition args_at (argIdx : N) : M string :=
  a <- gets args ;;
  match a !! N.to_nat argIdx with
  | Some s => ret s
  | None => undefined
  end.

(** [try { i = std::stoi(...); } catch (std::exception e) { i = 0; }] *)
Definition catch_zero {E A} (zero : A) (r : E + A) : A :=
  match r with
  | inr v => v
  | inl _ => zero
  end.

(** The line feed of the log format. *)
Definition LF : string := String (ascii_of_nat 10) EmptyString.

Section Descriptor.

(** [std::stod]: the decimal-to-binary conversion of the C++ library,
    throwing as [std::stoi] does. *)
Variable stod : string -> Std.exception + float.

(** [HotkeyManager::HotkeysToString], of the hotkey manager. *)
Variable HotkeysToString : Z -> string.

(** *** The argument store *)

Definition HasArgs (h : HotkeyInfo) : bool :=
  negb (bool_decide (args h = [])).

(** [args.size() - 1] is a [size_t]; behind the test for the empty
    vector it does not wrap. *)
Definition HasArg (h : HotkeyInfo) (argIdx : N) : bool :=
  if bool_decide (args h = []) then false
  else Z.of_N argIdx <=? Z.of_nat (length (args h)) - 1.

Definition ArgToInt (argIdx : N) : M Z :=
  h <- gets id ;;
  if _cache h && (0 <? Std.count (_intArgs h) argIdx) then
    let (v, m) := Std.index 0 (_intArgs h) argIdx in
    modify (set_intArgs m) ;;
    ret v
  else
    s <- args_at argIdx ;;
    let i := catch_zero 0 (Std.stoi s 10) in
    (if _cache h then modify (fun h => set_intArgs (<[argIdx := i]> (_intArgs h)) h)
     else ret tt) ;;
    ret i.

Definition ArgToDouble (argIdx : N) : M float :=
  h <- gets id ;;
  if _cache h && (0 <? Std.count (_doubleArgs h) argIdx) then
    let (v, m) := Std.index PrimFloat.zero (_doubleArgs h) argIdx in
    modify (set_doubleArgs m) ;;
    ret v
  else
    s <- args_at argIdx ;;
    let d := catch_zero PrimFloat.zero (stod s) in
    (if _cache h then modify (fun h => set_doubleArgs (<[argIdx := d]> (_doubleArgs h)) h)
     else ret tt) ;;
    ret d.

Definition HexArgToInt (argIdx : N) : M Z :=
  h <- gets id ;;
  if _cache h && (0 <? Std.count (_intArgs h) argIdx) then
    let (v, m) := Std.index 0 (_intArgs h) argIdx in
    modify (set_intArgs m) ;;
    ret v
  else
    s <- args_at argIdx ;;
    let i := catch_zero 0 (Std.stoi s 16) in
    (if _cache h then modify (fun h => set_intArgs (<[argIdx := i]> (_intArgs h)) h)
     else ret tt) ;;
    ret i.

(** [newSize] is an [unsigned int]: the sum wraps. [resize] appends
    empty strings. *)
Definition AllocateArg (argIdx : N) : M unit :=
  let newSize := (Z.of_N argIdx + 1) mod Std.UINT_MODULUS in
  h <- gets id ;;
  if newSize <=? Z.of_nat (length (args h)) then ret tt
  else
    modify (set_args
              (args h ++ replicate (Z.to_nat newSize - length (args h))%nat EmptyString)).

Definition EnableArgCache : M unit := modify (set_cache true).

Definition DisableArgCache : M unit := modify (set_cache false).

Definition ClearArgCache : M unit :=
  modify (set_intArgs ∅) ;;
  modify (set_doubleArgs ∅).

Definition VolumeArgType : M VolumeKeyArgTypes :=
  h <- gets id ;;
  if negb (HasArgs h) then ret NoArgs
  else if negb (HasArg h 1) then ret Units
  else
    arg1 <- ArgToInt 1 ;;
    ret arg1.

(** *** Rendering *)

(** [argStrs += L"'" + arg + L"' "] *)
Definition append_arg (argStrs arg : string) : string :=
  argStrs +:+ ("'" +:+ arg +:+ "' ").

Definition ToString (h : HotkeyInfo) : string :=
  let combination := HotkeysToString (keyCombination h) in
  let act :=
    if (0 <=? action h) && (action h mod Std.UINT_MODULUS <? ActionNames_size)
    then nth (Z.to_nat (action h)) ActionNames EmptyString
    else "(none)" in
  let argStrs := fold_left append_arg (args h) EmptyString in
  combination +:+ " -> " +:+ act +:+ " [ " +:+ argStrs +:+ "]".

(** Modelled from the spec: the macro [CLOG] of [Logger.h], which is not
    among the sources, as a sink that receives the formatted line. *)
Definition CLOG (rendered reason : string) : M unit :=
  emit ("Invalid hotkey: " +:+ rendered +:+ LF +:+ reason).

Definition LogInvalid (reason : string) : M unit :=
  h <- gets id ;;
  CLOG (ToString h) reason.

(** *** Validation *)

(** The labels of one group of [case]s. *)
Definition is_case (labels : list Z) (a : Z) : bool :=
  existsb (Z.eqb a) labels.

Definition Valid : M bool :=
  h <- gets id ;;
  if keyCombination h <=? 0 then
    LogInvalid "No key combination" ;;
    ret false
  else if (action h <? 0) || (ActionNames_size <? action h) then
    LogInvalid "Invalid action" ;;
    ret false
  else if is_case [IncreaseVolume; DecreaseVolume; SetVolume;
                   IncreaseBrightness; DecreaseBrightness; SetBrightness]
                  (action h) then
    if negb (HasArgs h) then ret true
    else
      arg0 <- args_at 0 ;;
      if String.eqb arg0 EmptyString then
        LogInvalid "No first argument" ;;
        ret false
      else
        amount <- ArgToInt 0 ;;
        if (amount <? 0) || (100 <? amount) then
          LogInvalid "Argument amount out of range" ;;
          ret false
        else if (amount =? 0)
                && negb (action h =? SetVolume)
                && negb (action h =? SetBrightness) then
          LogInvalid "Argument increment must be nonzero" ;;
          ret false
        else
          has1 <- gets (fun h => HasArg h 1) ;;
          if has1 then
            type <- ArgToInt 1 ;;
            if (type <? 0) || (2 <? type) then
              LogInvalid "Unknown increment type" ;;
              ret false
            else ret true
          else ret true
  else if is_case [EjectDrive; MediaKey; Run] (action h) then
    if negb (HasArgs h) then
      LogInvalid "Argument required" ;;
      ret false
    else ret true
  else ret true.

End Descriptor.

(** [args] is a public field: the settings loader assigns it. *)
Definition assign_args (a : list string) : M unit := modify (set_args a).

(** ** Views used to state the properties *)

(** What an integer accessor answers on descriptor [h] at index [i] when
    a fresh conversion would give [parsed]: the cached entry if caching is
    on and there is one. *)
Definition cached_int (h : HotkeyInfo) (i : N) (parsed : Z) : Z :=
  if _cache h then default parsed (_intArgs h !! i) else parsed.

(** The descriptor after an integer accessor answered [v] at index [i]. *)
Definition remember_int (h : HotkeyInfo) (i : N) (v : Z) : HotkeyInfo :=
  if _cache h then set_intArgs (<[i := v]> (_intArgs h)) h else h.

Definition cached_double (h : HotkeyInfo) (i : N) (parsed : float) : float :=
  if _cache h then default parsed (_doubleArgs h !! i) else parsed.

Definition remember_double (h : HotkeyInfo) (i : N) (v : float) : HotkeyInfo :=
  if _cache h then set_doubleArgs (<[i := v]> (_doubleArgs h)) h else h.

(** The value [ArgToInt i] returns in world [w] (0 where it has none). *)
Definition as_int (w : World) (i : N) : Z :=
  match ArgToInt i w with
  | Some (v, _) => v
  | None => 0
  end.

(** The world after [LogInvalid reason]. *)
Definition logged (HotkeysToString : Z -> string) (reason : string) (w : World) : World :=
  mkWorld (this w)
    (clog w ++ ["Invalid hotkey: " +:+ ToString HotkeysToString (this w) +:+ LF +:+ reason]).

(** The argument block of the rendering, in the spec's words: every
    argument between single quotes, followed by a space. *)
Definition quoted_args (a : list string) : string :=
  foldr (fun arg block => ("'" +:+ arg +:+ "' ") +:+ block) EmptyString a.

(** A library call that ends in an exception. *)
Definition throws {A} (r : Std.exception + A) : Prop :=
  exists e, r = inl e.

(** An [int] value. *)
Definition is_int (z : Z) : Prop := Std.INT_MIN <= z <= Std.INT_MAX.

(** The descriptor of a virtual-key binding with argument ["ff"], caching
    on, after [HexArgToInt(0)] filled the cache. *)
Definition vk_ff_cached : World :=
  mkWorld (mkHotkeyInfo 65601 VirtualKey ["ff"] {[ 0%N := 255 ]} ∅ true) [].

(** A virtual-key binding with argument ["10"] and caching on, nothing
    cached yet. *)
Definition vk_10_caching : World :=
  mkWorld (mkHotkeyInfo 65601 VirtualKey ["10"] ∅ ∅ true) [].

(** A volume binding with argument ["5"] and caching on, nothing cached
    yet. *)
Definition volume_5_caching : World :=
  mkWorld (mkHotkeyInfo 65601 IncreaseVolume ["5"] ∅ ∅ true) [].

(** The same binding after [ArgToInt(0)] cached its answer. *)
Definition volume_5_cached : World :=
  mkWorld (mkHotkeyInfo 65601 IncreaseVolume ["5"] {[ 0%N := 5 ]} ∅ true) [].

(** The volume binding of the spec's scenario 6. *)
Definition volume_50_percent : World :=
  mkWorld (configured 65601 IncreaseVolume ["50"; "2"]) [].

(** Stand-ins for the two collaborators, used by the concrete instances:
    a renderer that knows the chord of the spec's scenarios, and a decimal
    conversion that reads an integral prefix. *)
Definition sample_HotkeysToString (kc : Z) : string :=
  if kc =? 65601 then "Win+A" else "?".

Definition sample_stod (s : string) : Std.exception + float :=
  match Std.stoi s 10 with
  | inl e => inl e
  | inr v =>
      if v <? 0 then inr (PrimFloat.opp (PrimFloat.of_uint63 (Uint63.of_Z (- v))))
      else inr (PrimFloat.of_uint63 (Uint63.of_Z v))
  end.

(** [a] after [resize(n)] when [n] is not below its size, and [a] itself
    otherwise: padded with empty strings up to [n]. *)
Definition pad (n : nat) (a : list string) : list string :=
  a ++ replicate (n - length a)%nat EmptyString.

(** What [ArgToInt(i)] answers on descriptor [h], as a function of the
    descriptor alone: the cached entry when caching is on and there is one,
    else the conversion of [args[i]] (0 beyond [args], where the C++ has no
    answer). *)
Definition int_view (h : HotkeyInfo) (i : N) : Z :=
  cached_int h i
    match args h !! N.to_nat i with
    | Some s => catch_zero 0 (Std.stoi s 10)
    | None => 0
    end.

(** Two descriptors that differ at most in [_intArgs]. *)
Definition same_binding (h h' : HotkeyInfo) : Prop :=
  keyCombination h' = keyCombination h
  /\ action h' = action h
  /\ args h' = args h
  /\ _cache h' = _cache h
  /\ _doubleArgs h' = _doubleArgs h.

(** The verdict of the validator as a function of the key combination,
    the action, the arguments and the two integers the validator may read
    ([a0] for argument 0, [a1] for argument 1), with the tests of [Valid]
    in its order. *)
Definition accepts (h : HotkeyInfo) (a0 a1 : Z) : bool :=
  negb (keyCombination h <=? 0)
  && negb ((action h <? 0) || (ActionNames_size <? action h))
  && (if is_case [IncreaseVolume; DecreaseVolume; SetVolume;
                  IncreaseBrightness; DecreaseBrightness; SetBrightness]
                 (action h)
      then
        match args h with
        | [] => true
        | arg0 :: rest =>
            negb (String.eqb arg0 EmptyString)
            && negb ((a0 <? 0) || (100 <? a0))
            && negb ((a0 =? 0)
                     && negb (action h =? SetVolume)
                     && negb (action h =? SetBrightness))
            && match rest with
               | [] => true
               | _ :: _ => negb ((a1 <? 0) || (2 <? a1))
               end
        end
      else if is_case [EjectDrive; MediaKey; Run] (action h)
      then negb (bool_decide (args h = []))
      else true).

(** The line [LogInvalid] sends to the log. *)
Definition log_line (HotkeysToString : Z -> string) (h : HotkeyInfo) (reason : string) : string :=
  "Invalid hotkey: " +:+ ToString HotkeysToString h +:+ LF +:+ reason.

(** The reasons [Valid] gives. *)
Definition reasons : list string :=
  [ "No key combination";
    "Invalid action";
    "No first argument";
    "Argument amount out of range";
    "Argument increment must be nonzero";
    "Unknown increment type";
    "Argument required" ].

(** Descriptor [h'] is [h] after some integer accessors answered: the
    same binding, the same answers of [ArgToInt] at every index, and the
    same descriptor when caching is off. *)
Definition touched (h h' : HotkeyInfo) : Prop :=
  same_binding h h'
  /\ (forall j, int_view h' j = int_view h j)
  /\ (_cache h = false -> h' = h).

(** World [w'] is [w] after a validation with verdict [b]: the descriptor
    touched, and the log as it was on acceptance, one line longer on
    rejection. *)
Definition validated (HotkeysToString : Z -> string) (w w' : World) (b : bool) : Prop :=
  touched (this w) (this w')
  /\ if b then clog w' = clog w
     else exists reason,
         In reason reasons
         /\ clog w' = clog w ++ [log_line HotkeysToString (this w) reason].

(** A binding with one argument and a stale cache entry for index 3. *)
Definition run_notepad : World :=
  mkWorld (mkHotkeyInfo 65601 Run ["notepad"] {[ 3%N := 7 ]} ∅ true) [].

(** The validator's answer and the lines it logged, on a descriptor as
    the settings loader leaves it and an empty log. *)
Definition verdict (kc act : Z) (a : list string) : option (bool * list string) :=
  option_map (fun r => (fst r, clog (snd r)))
    (Valid sample_HotkeysToString (mkWorld (configured kc act a) [])).

(** * Properties *)

(** ** The numeric parser *)

(** What [std::stoi] returns is an [int]. *)
Lemma stoi_is_int (s : string) (base v : Z) :
  Std.stoi s base = inr v -> is_int v.
Proof.
  unfold Std.stoi, is_int.
  destruct (Std.sign (Std.skip_space s)) as [sg body].
  destruct (Std.digits base (Std.hex_prefix base body) false 0) as [seen m].
  destruct (negb seen); [discriminate|].
  destruct ((sg * m <? Std.INT_MIN) || (Std.INT_MAX <? sg * m)) eqn:R;
    [discriminate|].
  intros [= <-]. apply orb_false_iff in R as [Lo Hi].
  apply Z.ltb_ge in Lo, Hi. lia.
Qed.

(** Without a digit after the white space and the sign, [std::stoi]
    throws [invalid_argument]. *)
Lemma stoi_empty (base : Z) : Std.stoi EmptyString base = inl Std.invalid_argument.
Proof. reflexivity. Qed.


Example stoi_dec_5 : Std.stoi "5" 10 = inr 5.
Proof. reflexivity. Qed.

Example stoi_dec_ws_sign : Std.stoi "  -42abc" 10 = inr (-42).
Proof. reflexivity. Qed.

Example stoi_dec_abc : Std.stoi "abc" 10 = inl Std.invalid_argument.
Proof. reflexivity. Qed.

Example stoi_dec_big : Std.stoi "2147483648" 10 = inl Std.out_of_range.
Proof. reflexivity. Qed.

Example stoi_dec_min : Std.stoi "-2147483648" 10 = inr (-2147483648).
Proof. reflexivity. Qed.

Example stoi_hex_ff : Std.stoi "0xff" 16 = inr 255.
Proof. reflexivity. Qed.

Example stoi_hex_bare_prefix : Std.stoi "0x" 16 = inr 0.
Proof. reflexivity. Qed.

Example stoi_hex_10 : Std.stoi "10" 16 = inr 16.
Proof. reflexivity. Qed.


(** ** The argument store *)

Arguments Std.stoi : simpl never.
Arguments LogInvalid : simpl never.
Arguments ToString : simpl never.
Arguments ArgToInt : simpl never.
Arguments HexArgToInt : simpl never.
Arguments ArgToDouble : simpl never.
Arguments cached_int : simpl never.
Arguments remember_int : simpl never.
Arguments cached_double : simpl never.
Arguments remember_double : simpl never.

(** Runs the monadic plumbing of a member function. *)
Ltac run :=
  unfold args_at in *;
  unfold bind, ret, gets, modify, emit, undefined, id in *;
  simpl in *.

Lemma set_intArgs_same (h : HotkeyInfo) : set_intArgs (_intArgs h) h = h.
Proof. by destruct h. Qed.

Lemma set_intArgs_insert_id (h : HotkeyInfo) (i : N) (v : Z) :
  _intArgs h !! i = Some v -> set_intArgs (<[i := v]> (_intArgs h)) h = h.
Proof. intros E. rewrite insert_id by done. apply set_intArgs_same. Qed.

Lemma set_doubleArgs_insert_id (h : HotkeyInfo) (i : N) (v : float) :
  _doubleArgs h !! i = Some v -> set_doubleArgs (<[i := v]> (_doubleArgs h)) h = h.
Proof. intros E. rewrite insert_id by done. by destruct h. Qed.

Lemma world_eta (w : World) : mkWorld (this w) (clog w) = w.
Proof. by destruct w. Qed.

(** A cached entry answers without a look at [args]. *)
Lemma ArgToInt_hit (i : N) (w : World) (v : Z) :
  _cache (this w) = true -> _intArgs (this w) !! i = Some v ->
  ArgToInt i w = Some (v, w).
Proof.
  intros C E. unfold ArgToInt, Std.count, Std.index. run.
  rewrite C, E. simpl. by rewrite set_intArgs_same, world_eta.
Qed.

Lemma HexArgToInt_hit (i : N) (w : World) (v : Z) :
  _cache (this w) = true -> _intArgs (this w) !! i = Some v ->
  HexArgToInt i w = Some (v, w).
Proof.
  intros C E. unfold HexArgToInt, Std.count, Std.index. run.
  rewrite C, E. simpl. by rewrite set_intArgs_same, world_eta.
Qed.

(** Within [args] an integer accessor always answers: the cached entry or
    the fresh conversion, which it then remembers. *)
Lemma ArgToInt_run (i : N) (w : World) (s : string) :
  args (this w) !! N.to_nat i = Some s ->
  let v := cached_int (this w) i (catch_zero 0 (Std.stoi s 10)) in
  ArgToInt i w = Some (v, mkWorld (remember_int (this w) i v) (clog w)).
Proof.
  intros A. unfold ArgToInt, cached_int, remember_int, Std.count, Std.index. run.
  destruct (_cache (this w)); simpl.
  - destruct (_intArgs (this w) !! i) as [c|] eqn:E; simpl.
    + by rewrite set_intArgs_insert_id, set_intArgs_same.
    + by rewrite A.
  - by rewrite A, world_eta.
Qed.

Lemma HexArgToInt_run (i : N) (w : World) (s : string) :
  args (this w) !! N.to_nat i = Some s ->
  let v := cached_int (this w) i (catch_zero 0 (Std.stoi s 16)) in
  HexArgToInt i w = Some (v, mkWorld (remember_int (this w) i v) (clog w)).
Proof.
  intros A. unfold HexArgToInt, cached_int, remember_int, Std.count, Std.index. run.
  destruct (_cache (this w)); simpl.
  - destruct (_intArgs (this w) !! i) as [c|] eqn:E; simpl.
    + by rewrite set_intArgs_insert_id, set_intArgs_same.
    + by rewrite A.
  - by rewrite A, world_eta.
Qed.

Lemma ArgToDouble_run stod (i : N) (w : World) (s : string) :
  args (this w) !! N.to_nat i = Some s ->
  let v := cached_double (this w) i (catch_zero PrimFloat.zero (stod s)) in
  ArgToDouble stod i w = Some (v, mkWorld (remember_double (this w) i v) (clog w)).
Proof.
  intros A. unfold ArgToDouble, cached_double, remember_double, Std.count, Std.index. run.
  destruct (_cache (this w)); simpl.
  - destruct (_doubleArgs (this w) !! i) as [c|] eqn:E; simpl.
    + rewrite set_doubleArgs_insert_id by done. by destruct w as [[]].
    + by rewrite A.
  - by rewrite A, world_eta.
Qed.

(** What remembering leaves alone, and what it stores. *)
Lemma remember_int_frame (h : HotkeyInfo) (i : N) (v : Z) :
  keyCombination (remember_int h i v) = keyCombination h
  /\ action (remember_int h i v) = action h
  /\ args (remember_int h i v) = args h
  /\ _doubleArgs (remember_int h i v) = _doubleArgs h
  /\ _cache (remember_int h i v) = _cache h.
Proof. unfold remember_int. by destruct (_cache h) eqn:C. Qed.

Lemma remember_int_lookup (h : HotkeyInfo) (i : N) (v : Z) :
  _cache h = true -> _intArgs (remember_int h i v) !! i = Some v.
Proof. intros C. unfold remember_int. rewrite C. simpl. apply lookup_insert_eq. Qed.

Lemma remember_int_other (h : HotkeyInfo) (i j : N) (v : Z) :
  i <> j -> _intArgs (remember_int h i v) !! j = _intArgs h !! j.
Proof.
  intros D. unfold remember_int. destruct (_cache h); [|done].
  simpl. by apply lookup_insert_ne.
Qed.

Lemma cached_int_other (h : HotkeyInfo) (i j : N) (v parsed : Z) :
  i <> j -> cached_int (remember_int h i v) j parsed = cached_int h j parsed.
Proof.
  intros D. unfold cached_int.
  destruct (remember_int_frame h i v) as (_ & _ & _ & _ & ->).
  by rewrite remember_int_other.
Qed.

Lemma lookup_in_range (a : list string) (i : N) :
  (N.to_nat i < length a)%nat -> exists s, a !! N.to_nat i = Some s.
Proof. intros L. by apply lookup_lt_is_Some_2. Qed.

(** The test of [HasArg], as arithmetic on the length. *)
Lemma HasArg_true (h : HotkeyInfo) (i : N) :
  HasArg h i = true <-> (N.to_nat i < length (args h))%nat.
Proof.
  unfold HasArg. case_bool_decide as E.
  - rewrite E. simpl. split; [discriminate | lia].
  - destruct (args h) as [|a rest]; [done|]. simpl length.
    rewrite Z.leb_le. lia.
Qed.

(** C9: [HasArg(i)] is true exactly when [i < args.size()], for every
    descriptor and index; in particular it is false at index 0 on an
    empty argument vector. *)
Theorem HasArg_iff_in_range (h : HotkeyInfo) (i : N) :
  (HasArg h i = true <-> (N.to_nat i < length (args h))%nat)
  /\ (HasArg h i = false <-> (length (args h) <= N.to_nat i)%nat)
  /\ (args h = [] -> HasArg h 0 = false).
Proof.
  split; [apply HasArg_true|]. split.
  - rewrite <- not_true_iff_false, HasArg_true. lia.
  - intros E. apply not_true_iff_false. rewrite HasArg_true, E. simpl. lia.
Qed.

Example HasArg_empty_0 : HasArg (configured 65601 0 []) 0 = false.
Proof. reflexivity. Qed.

Example HasArg_last : HasArg (configured 65601 0 ["50"; "2"]) 1 = true.
Proof. reflexivity. Qed.

Example HasArg_past_end : HasArg (configured 65601 0 ["50"; "2"]) 2 = false.
Proof. reflexivity. Qed.

(** C3: with caching on, [ArgToInt] and [HexArgToInt] read and write the
    same entry of [_intArgs]. Within [args], [ArgToInt(i)] answers, leaves
    its answer in [_intArgs[i]] (the base-10 conversion when nothing was
    cached before), and [HexArgToInt(i)] called next returns that very
    value and changes nothing; and the same with the two accessors (and
    the two bases) exchanged. *)
Theorem int_accessors_share_cache (w : World) (i : N) :
  _cache (this w) = true ->
  (N.to_nat i < length (args (this w)))%nat ->
  (exists v w',
      ArgToInt i w = Some (v, w')
      /\ _intArgs (this w') !! i = Some v
      /\ (forall s, _intArgs (this w) !! i = None ->
                    args (this w) !! N.to_nat i = Some s ->
                    v = catch_zero 0 (Std.stoi s 10))
      /\ HexArgToInt i w' = Some (v, w'))
  /\ (exists v w',
      HexArgToInt i w = Some (v, w')
      /\ _intArgs (this w') !! i = Some v
      /\ (forall s, _intArgs (this w) !! i = None ->
                    args (this w) !! N.to_nat i = Some s ->
                    v = catch_zero 0 (Std.stoi s 16))
      /\ ArgToInt i w' = Some (v, w')).
Proof.
  intros C L. destruct (lookup_in_range _ _ L) as [s A].
  split.
  - eexists _, _. split; [by apply ArgToInt_run|].
    assert (F := remember_int_frame (this w) i
                   (cached_int (this w) i (catch_zero 0 (Std.stoi s 10)))).
    destruct F as (_ & _ & _ & _ & F).
    repeat split.
    + by apply remember_int_lookup.
    + intros s' E A'. unfold cached_int. rewrite C, E. simpl. congruence.
    + apply HexArgToInt_hit; simpl; [congruence | by apply remember_int_lookup].
  - eexists _, _. split; [by apply HexArgToInt_run|].
    assert (F := remember_int_frame (this w) i
                   (cached_int (this w) i (catch_zero 0 (Std.stoi s 16)))).
    destruct F as (_ & _ & _ & _ & F).
    repeat split.
    + by apply remember_int_lookup.
    + intros s' E A'. unfold cached_int. rewrite C, E. simpl. congruence.
    + apply ArgToInt_hit; simpl; [congruence | by apply remember_int_lookup].
Qed.

Lemma int_accessors_share_cache_witness :
  _cache (this vk_10_caching) = true
  /\ (N.to_nat 0 < length (args (this vk_10_caching)))%nat
  /\ (exists v w', ArgToInt 0 vk_10_caching = Some (v, w')
                   /\ HexArgToInt 0 w' = Some (v, w'))
  /\ (exists v w', HexArgToInt 0 vk_10_caching = Some (v, w')
                   /\ ArgToInt 0 w' = Some (v, w')).
Proof.
  assert ((N.to_nat 0 < length (args (this vk_10_caching)))%nat) as L
    by (simpl; lia).
  split; [reflexivity|]. split; [exact L|].
  destruct (int_accessors_share_cache vk_10_caching 0 eq_refl L)
    as [(v & w' & R & _ & _ & X) (v2 & w2 & R2 & _ & _ & X2)].
  split; [exists v, w' | exists v2, w2]; split; assumption.
Defined.

(** On ["10"] the two bases differ, and the second accessor repeats the
    first one's answer. *)
Example dec_then_hex_on_10 :
  option_map fst
    ((EnableArgCache ;; a <- ArgToInt 0 ;; b <- HexArgToInt 0 ;; ret (a, b))
       (mkWorld (configured 65601 12 ["10"]) []))
  = Some (10, 10)
  /\ Std.stoi "10" 16 = inr 16.
Proof. split; vm_compute; reflexivity. Qed.

Example hex_then_dec_on_10 :
  option_map fst
    ((EnableArgCache ;; a <- HexArgToInt 0 ;; b <- ArgToInt 0 ;; ret (a, b))
       (mkWorld (configured 65601 12 ["10"]) []))
  = Some (16, 16)
  /\ Std.stoi "10" 10 = inr 10.
Proof. split; vm_compute; reflexivity. Qed.

(** C10: [EnableArgCache] and [DisableArgCache] change the flag [_cache]
    and nothing else, in particular neither cache; so a value [ArgToInt(i)]
    cached while caching was on is what [ArgToInt(i)] returns again after
    caching was switched off and on, whatever was assigned to [args] in
    between. *)
Theorem cache_survives_disable (w : World) (i : N) (a' : list string) :
  (exists w', EnableArgCache w = Some (tt, w')
      /\ _cache (this w') = true
      /\ _intArgs (this w') = _intArgs (this w)
      /\ _doubleArgs (this w') = _doubleArgs (this w)
      /\ args (this w') = args (this w)
      /\ keyCombination (this w') = keyCombination (this w)
      /\ action (this w') = action (this w)
      /\ clog w' = clog w)
  /\ (exists w', DisableArgCache w = Some (tt, w')
      /\ _cache (this w') = false
      /\ _intArgs (this w') = _intArgs (this w)
      /\ _doubleArgs (this w') = _doubleArgs (this w)
      /\ args (this w') = args (this w)
      /\ keyCombination (this w') = keyCombination (this w)
      /\ action (this w') = action (this w)
      /\ clog w' = clog w)
  /\ (_cache (this w) = true ->
      (N.to_nat i < length (args (this w)))%nat ->
      exists v w',
        (v1 <- ArgToInt i ;;
         DisableArgCache ;;
         assign_args a' ;;
         EnableArgCache ;;
         v2 <- ArgToInt i ;;
         ret (v1, v2)) w = Some ((v, v), w')).
Proof.
  split; [by eexists | split; [by eexists |]].
  intros C L. destruct (lookup_in_range _ _ L) as [s A].
  pose proof (ArgToInt_run i w s A) as R. simpl in R.
  set (v := cached_int (this w) i (catch_zero 0 (Std.stoi s 10))) in R.
  exists v. eexists.
  unfold bind at 1. rewrite R.
  unfold DisableArgCache, assign_args, EnableArgCache. run.
  rewrite ArgToInt_hit with (v := v); [reflexivity | done |].
  simpl. by apply remember_int_lookup.
Qed.

Lemma cache_survives_disable_witness :
  _cache (this volume_5_caching) = true
  /\ (N.to_nat 0 < length (args (this volume_5_caching)))%nat
  /\ exists v w',
      (v1 <- ArgToInt 0 ;;
       DisableArgCache ;;
       assign_args ["9"] ;;
       EnableArgCache ;;
       v2 <- ArgToInt 0 ;;
       ret (v1, v2)) volume_5_caching = Some ((v, v), w').
Proof.
  assert ((N.to_nat 0 < length (args (this volume_5_caching)))%nat) as L
    by (simpl; lia).
  split; [reflexivity|]. split; [exact L|].
  exact (proj2 (proj2 (cache_survives_disable volume_5_caching 0 ["9"])) eq_refl L).
Defined.

(** The argument was "5" when it was cached and is "9" afterwards: the
    second answer is still 5, and 9 once the cache is cleared. *)
Example stale_after_cycle :
  option_map fst
    ((v1 <- ArgToInt 0 ;;
      DisableArgCache ;;
      assign_args ["9"] ;;
      EnableArgCache ;;
      v2 <- ArgToInt 0 ;;
      ClearArgCache ;;
      v3 <- ArgToInt 0 ;;
      ret (v1, v2, v3)) volume_5_caching)
  = Some (5, 5, 9).
Proof. vm_compute. reflexivity. Qed.

(** C6: [VolumeArgType] answers [NoArgs] on no argument, [Units] on
    exactly one, and otherwise the integer [ArgToInt(1)] returns, as it
    is (the cast to the enumeration 0 = NoArgs, 1 = Units, 2 = Percent
    keeps every integer). *)
Theorem VolumeArgType_by_arity (w : World) :
  (args (this w) = [] -> VolumeArgType w = Some (NoArgs, w))
  /\ (forall a, args (this w) = [a] -> VolumeArgType w = Some (Units, w))
  /\ (forall a b rest, args (this w) = a :: b :: rest ->
      exists v w', ArgToInt 1 w = Some (v, w')
                   /\ VolumeArgType w = Some (v, w'))
  /\ (NoArgs, Units, Percent) = (0, 1, 2).
Proof.
  unfold VolumeArgType, HasArgs, HasArg. run.
  repeat split.
  - by intros ->.
  - by intros a ->.
  - intros a b rest E.
    pose proof (ArgToInt_run 1 w b) as R. rewrite E in R.
    specialize (R eq_refl). simpl in R.
    eexists _, _. split; [exact R|].
    rewrite E. simpl. replace (Pos.to_nat 1) with 1%nat in * by done.
    destruct (1 <=? Z.of_nat (S (S (length rest))) - 1) eqn:Le.
    + simpl. by rewrite R.
    + apply Z.leb_gt in Le. lia.
Qed.

Lemma VolumeArgType_by_arity_witness :
  args (this (mkWorld (configured 65601 IncreaseVolume ["5"; "7"]) []))
  = ["5"; "7"]
  /\ exists v w',
      ArgToInt 1 (mkWorld (configured 65601 IncreaseVolume ["5"; "7"]) [])
      = Some (v, w')
      /\ VolumeArgType (mkWorld (configured 65601 IncreaseVolume ["5"; "7"]) [])
         = Some (v, w').
Proof.
  split; [reflexivity|].
  exact (proj1 (proj2 (proj2 (VolumeArgType_by_arity
                                (mkWorld (configured 65601 IncreaseVolume ["5"; "7"]) []))))
           "5" "7" [] eq_refl).
Defined.

Example VolumeArgType_none :
  option_map fst (VolumeArgType (mkWorld (configured 65601 0 []) [])) = Some NoArgs.
Proof. reflexivity. Qed.

Example VolumeArgType_one :
  option_map fst (VolumeArgType (mkWorld (configured 65601 0 ["5"]) [])) = Some Units.
Proof. reflexivity. Qed.

Example VolumeArgType_percent :
  option_map fst (VolumeArgType (mkWorld (configured 65601 0 ["50"; "2"]) []))
  = Some Percent.
Proof. reflexivity. Qed.

Example VolumeArgType_unclamped :
  option_map fst (VolumeArgType (mkWorld (configured 65601 0 ["5"; "7"]) []))
  = Some 7.
Proof. reflexivity. Qed.

(** C7, as the code has it: within [args], when no value is cached for the
    index (caching off, or no entry in the cache the accessor reads), a
    string that [std::stoi] (base 10, base 16) or [std::stod] rejects makes
    [ArgToInt], [HexArgToInt] and [ArgToDouble] return zero; the accessor
    returns, the exception does not leave it. *)
Theorem parse_failure_yields_zero
    (stod : string -> Std.exception + float) (w : World) (i : N) (s : string) :
  args (this w) !! N.to_nat i = Some s ->
  (throws (Std.stoi s 10) ->
   _cache (this w) = false \/ _intArgs (this w) !! i = None ->
   exists w', ArgToInt i w = Some (0, w'))
  /\ (throws (Std.stoi s 16) ->
      _cache (this w) = false \/ _intArgs (this w) !! i = None ->
      exists w', HexArgToInt i w = Some (0, w'))
  /\ (throws (stod s) ->
      _cache (this w) = false \/ _doubleArgs (this w) !! i = None ->
      exists w', ArgToDouble stod i w = Some (PrimFloat.zero, w')).
Proof.
  intros A. repeat split.
  - intros [e T] Miss. eexists.
    rewrite (ArgToInt_run i w s A). unfold cached_int. rewrite T.
    destruct Miss as [-> | ->]; [done|]. by destruct (_cache (this w)).
  - intros [e T] Miss. eexists.
    rewrite (HexArgToInt_run i w s A). unfold cached_int. rewrite T.
    destruct Miss as [-> | ->]; [done|]. by destruct (_cache (this w)).
  - intros [e T] Miss. eexists.
    rewrite (ArgToDouble_run stod i w s A). unfold cached_double. rewrite T.
    destruct Miss as [-> | ->]; [done|]. by destruct (_cache (this w)).
Qed.

Lemma parse_failure_yields_zero_witness :
  args (this (mkWorld (configured 65601 0 ["xyz"]) [])) !! N.to_nat 0 = Some "xyz"
  /\ (exists w', ArgToInt 0 (mkWorld (configured 65601 0 ["xyz"]) []) = Some (0, w'))
  /\ (exists w', HexArgToInt 0 (mkWorld (configured 65601 0 ["xyz"]) []) = Some (0, w'))
  /\ (exists w', ArgToDouble sample_stod 0 (mkWorld (configured 65601 0 ["xyz"]) [])
                 = Some (PrimFloat.zero, w')).
Proof.
  split; [reflexivity|].
  destruct (parse_failure_yields_zero sample_stod
              (mkWorld (configured 65601 0 ["xyz"]) []) 0 "xyz" eq_refl)
    as (D & H & F).
  split; [apply D | split; [apply H | apply F]];
    solve [by exists Std.invalid_argument | by left].
Defined.

(** C7 as stated fails on a cached entry: in the state [EnableArgCache]
    and [HexArgToInt(0)] leave behind on the argument ["ff"], which
    [std::stoi] rejects in base 10, [ArgToInt(0)] returns 255. *)
Lemma parse_failure_nonzero_on_cached_entry :
  (EnableArgCache ;; HexArgToInt 0) (mkWorld (configured 65601 VirtualKey ["ff"]) [])
  = Some (255, vk_ff_cached)
  /\ args (this vk_ff_cached) !! N.to_nat 0 = Some "ff"
  /\ Std.stoi "ff" 10 = inl Std.invalid_argument
  /\ ArgToInt 0 vk_ff_cached = Some (255, vk_ff_cached)
  /\ 255 <> 0.
Proof. repeat split; try (vm_compute; reflexivity). lia. Qed.

(** ** Validation *)

Section Validation.

Variable HotkeysToString : Z -> string.

Lemma LogInvalid_run (reason : string) (w : World) :
  LogInvalid HotkeysToString reason w = Some (tt, logged HotkeysToString reason w).
Proof. reflexivity. Qed.

Lemma HasArgs_cons (h : HotkeyInfo) (a : string) (rest : list string) :
  args h = a :: rest -> HasArgs h = true.
Proof. unfold HasArgs. by intros ->. Qed.

Lemma HasArgs_nil (h : HotkeyInfo) : args h = [] -> HasArgs h = false.
Proof. unfold HasArgs. by intros ->. Qed.

(** C4: a descriptor whose [keyCombination] is not positive is rejected
    with the reason "No key combination", whatever its action and
    arguments: that line is the only one logged and the descriptor is
    left as it was, so no other rule ran before. *)
Theorem Valid_no_key_combination (w : World) :
  keyCombination (this w) <= 0 ->
  Valid HotkeysToString w
  = Some (false,
          mkWorld (this w)
            (clog w ++ ["Invalid hotkey: " +:+ ToString HotkeysToString (this w)
                        +:+ LF +:+ "No key combination"])).
Proof.
  intros K. unfold Valid. run.
  apply Z.leb_le in K. by rewrite K.
Qed.

(** C5: with a positive [keyCombination] and the action EjectDrive,
    MediaKey or Run, the descriptor is rejected with the reason
    "Argument required" when it has no argument, and accepted, with no
    look at the arguments, when it has one. *)
Theorem Valid_argument_required (w : World) :
  keyCombination (this w) > 0 ->
  action (this w) = EjectDrive \/ action (this w) = MediaKey
  \/ action (this w) = Run ->
  (args (this w) = [] ->
   Valid HotkeysToString w
   = Some (false,
           mkWorld (this w)
             (clog w ++ ["Invalid hotkey: " +:+ ToString HotkeysToString (this w)
                         +:+ LF +:+ "Argument required"])))
  /\ (args (this w) <> [] -> Valid HotkeysToString w = Some (true, w)).
Proof.
  intros K Act.
  assert ((keyCombination (this w) <=? 0) = false) as K' by (apply Z.leb_gt; lia).
  unfold Valid. run. rewrite K'.
  split.
  - intros E. rewrite (HasArgs_nil _ E).
    destruct Act as [-> | [-> | ->]]; reflexivity.
  - intros E. destruct (args (this w)) as [|a rest] eqn:A; [done|].
    rewrite (HasArgs_cons _ _ _ A).
    destruct Act as [-> | [-> | ->]]; reflexivity.
Qed.

Lemma as_int_run (i : N) (w : World) (s : string) :
  args (this w) !! N.to_nat i = Some s ->
  as_int w i = cached_int (this w) i (catch_zero 0 (Std.stoi s 10)).
Proof. intros A. unfold as_int. by rewrite (ArgToInt_run i w s A). Qed.

Lemma range_rule (a lo hi : Z) :
  (a <? lo) || (hi <? a) = false <-> lo <= a <= hi.
Proof. rewrite orb_false_iff, !Z.ltb_ge. lia. Qed.

Lemma nonzero_rule (a act : Z) :
  (a =? 0) && negb (act =? SetVolume) && negb (act =? SetBrightness) = false
  <-> (a = 0 -> act = SetVolume \/ act = SetBrightness).
Proof.
  destruct (Z.eqb_spec a 0), (Z.eqb_spec act SetVolume),
    (Z.eqb_spec act SetBrightness); simpl; intuition congruence.
Qed.

(** C2: with a positive [keyCombination] and a volume or brightness
    action (increase, decrease, set), a descriptor without arguments is
    accepted; one with arguments is accepted exactly when [args[0]] is
    not empty, [ArgToInt(0)] is between 0 and 100, it is not 0 unless the
    action is SetVolume or SetBrightness, and, if there is an argument 1,
    [ArgToInt(1)] is between 0 and 2. The validator always returns. *)
Theorem Valid_volume_brightness (w : World) :
  keyCombination (this w) > 0 ->
  action (this w) = IncreaseVolume \/ action (this w) = DecreaseVolume
  \/ action (this w) = SetVolume \/ action (this w) = IncreaseBrightness
  \/ action (this w) = DecreaseBrightness \/ action (this w) = SetBrightness ->
  (args (this w) = [] -> Valid HotkeysToString w = Some (true, w))
  /\ (args (this w) <> [] ->
      exists b w',
        Valid HotkeysToString w = Some (b, w')
        /\ (b = true <->
            args (this w) !! 0%nat <> Some EmptyString
            /\ 0 <= as_int w 0 <= 100
            /\ (as_int w 0 = 0 ->
                action (this w) = SetVolume \/ action (this w) = SetBrightness)
            /\ ((1 < length (args (this w)))%nat -> 0 <= as_int w 1 <= 2))).
Proof.
  intros K Act.
  assert ((keyCombination (this w) <=? 0) = false) as K' by (apply Z.leb_gt; lia).
  assert ((action (this w) <? 0) || (ActionNames_size <? action (this w)) = false) as B
    by (destruct Act as [-> | [-> | [-> | [-> | [-> | ->]]]]]; reflexivity).
  assert (is_case [IncreaseVolume; DecreaseVolume; SetVolume;
                   IncreaseBrightness; DecreaseBrightness; SetBrightness]
            (action (this w)) = true) as Sw
    by (destruct Act as [-> | [-> | [-> | [-> | [-> | ->]]]]]; reflexivity).
  unfold Valid. run. rewrite K', B, Sw.
  split.
  - intros E. by rewrite (HasArgs_nil _ E).
  - intros NE. destruct (args (this w)) as [|arg0 rest] eqn:A.
    { by destruct NE. }
    rewrite (HasArgs_cons _ _ _ A). simpl. rewrite A. simpl.
    pose proof (ArgToInt_run 0 w arg0) as R0. rewrite A in R0.
    specialize (R0 eq_refl). simpl in R0.
    pose proof (as_int_run 0 w arg0) as V0. rewrite A in V0.
    specialize (V0 eq_refl). rewrite <- V0 in R0.
    destruct (String.eqb arg0 EmptyString) eqn:E0.
    { apply String.eqb_eq in E0. subst arg0.
      eexists _, _. split; [reflexivity|].
      split; [discriminate | by intros [N _]]. }
    apply String.eqb_neq in E0. rewrite R0. simpl.
    destruct ((as_int w 0 <? 0) || (100 <? as_int w 0)) eqn:Rng.
    { eexists _, _. split; [reflexivity|].
      split; [discriminate | intros (_ & Bad & _)].
      apply range_rule in Bad. congruence. }
    apply range_rule in Rng.
    destruct ((as_int w 0 =? 0) && negb (action (this w) =? SetVolume)
              && negb (action (this w) =? SetBrightness)) eqn:Zc.
    { eexists _, _. split; [reflexivity|].
      split; [discriminate | intros (_ & _ & Bad & _)].
      apply nonzero_rule in Bad. congruence. }
    pose proof (proj1 (nonzero_rule _ _) Zc) as Nz. clear Zc. simpl.
    set (h0 := remember_int (this w) 0 (as_int w 0)).
    assert (args h0 = arg0 :: rest) as A0
      by (rewrite <- A; apply remember_int_frame).
    assert (arg0 <> EmptyString -> Some arg0 <> Some EmptyString) as E0'
      by congruence.
    destruct rest as [|arg1 rest'].
    { assert (HasArg h0 1 = false) as H1.
      { apply not_true_iff_false. rewrite HasArg_true, A0. simpl. lia. }
      rewrite H1. eexists _, _. split; [reflexivity|].
      split; [intros _ | done]. repeat split; auto; simpl in *; lia. }
    assert (HasArg h0 1 = true) as H1.
    { rewrite HasArg_true, A0. simpl. lia. }
    rewrite H1.
    pose proof (ArgToInt_run 1 (mkWorld h0 (clog w)) arg1) as R1.
    simpl in R1. rewrite A0 in R1. specialize (R1 eq_refl).
    unfold h0 in R1 at 2 3. rewrite cached_int_other in R1 by done.
    pose proof (as_int_run 1 w arg1) as V1. rewrite A in V1.
    specialize (V1 eq_refl). rewrite <- V1 in R1. rewrite R1. simpl.
    destruct ((as_int w 1 <? 0) || (2 <? as_int w 1)) eqn:Ty.
    { eexists _, _. split; [reflexivity|].
      split; [discriminate | intros (_ & _ & _ & Bad)].
      assert (0 <= as_int w 1 <= 2) as Bad' by (apply Bad; simpl; lia).
      apply range_rule in Bad'. congruence. }
    apply range_rule in Ty.
    eexists _, _. split; [reflexivity|].
    split; [intros _ | done]. repeat split; auto; lia.
Qed.

(** What the validator does ensure about an accepted descriptor: a
    positive key combination and an action from 0 to the size of
    [ActionNames], the size included. *)
Lemma Valid_true_bounds (w w' : World) :
  Valid HotkeysToString w = Some (true, w') ->
  keyCombination (this w) > 0 /\ 0 <= action (this w) <= ActionNames_size.
Proof.
  unfold Valid. run.
  destruct (keyCombination (this w) <=? 0) eqn:K; [discriminate|].
  destruct ((action (this w) <? 0) || (ActionNames_size <? action (this w))) eqn:B;
    [discriminate|].
  intros _. apply Z.leb_gt in K. apply range_rule in B. lia.
Qed.

(** C1, on the code: a descriptor with a positive key combination whose
    action is the size of [ActionNames] (17, one past the last name) is
    accepted, although no name belongs to that action. *)
Theorem Valid_accepts_table_size (w : World) :
  keyCombination (this w) > 0 ->
  action (this w) = ActionNames_size ->
  Valid HotkeysToString w = Some (true, w)
  /\ ActionNames_size = 17
  /\ ~ (0 <= action (this w) < ActionNames_size)
  /\ ActionNames !! Z.to_nat (action (this w)) = None.
Proof.
  intros K Act.
  assert ((keyCombination (this w) <=? 0) = false) as K' by (apply Z.leb_gt; lia).
  repeat split.
  - unfold Valid. run. by rewrite K', Act.
  - lia.
  - by rewrite Act.
Qed.

End Validation.

Lemma Valid_no_key_combination_witness :
  keyCombination (this (mkWorld (configured 0 Mute []) [])) <= 0
  /\ Valid sample_HotkeysToString (mkWorld (configured 0 Mute []) [])
     = Some (false,
             mkWorld (configured 0 Mute [])
               ["Invalid hotkey: ? -> Mute [ ]" +:+ LF +:+ "No key combination"]).
Proof.
  split; [simpl; lia|].
  apply (Valid_no_key_combination sample_HotkeysToString
           (mkWorld (configured 0 Mute []) [])).
  simpl. lia.
Defined.

Lemma Valid_argument_required_witness :
  keyCombination (this (mkWorld (configured 65601 MediaKey []) [])) > 0
  /\ action (this (mkWorld (configured 65601 MediaKey []) [])) = MediaKey
  /\ Valid sample_HotkeysToString (mkWorld (configured 65601 MediaKey []) [])
     = Some (false,
             mkWorld (configured 65601 MediaKey [])
               ["Invalid hotkey: Win+A -> Media Key [ ]" +:+ LF +:+ "Argument required"])
  /\ Valid sample_HotkeysToString (mkWorld (configured 65601 Run ["notepad"]) [])
     = Some (true, mkWorld (configured 65601 Run ["notepad"]) []).
Proof.
  split; [simpl; lia|]. split; [reflexivity|]. split.
  - apply (Valid_argument_required sample_HotkeysToString
             (mkWorld (configured 65601 MediaKey []) [])).
    + simpl. lia.
    + right. left. reflexivity.
    + reflexivity.
  - apply (Valid_argument_required sample_HotkeysToString
             (mkWorld (configured 65601 Run ["notepad"]) [])).
    + simpl. lia.
    + right. right. reflexivity.
    + discriminate.
Defined.

Lemma Valid_volume_brightness_witness :
  keyCombination (this volume_50_percent) > 0
  /\ action (this volume_50_percent) = IncreaseVolume
  /\ args (this volume_50_percent) <> []
  /\ exists b w',
      Valid sample_HotkeysToString volume_50_percent = Some (b, w')
      /\ (b = true <->
          args (this volume_50_percent) !! 0%nat <> Some EmptyString
          /\ 0 <= as_int volume_50_percent 0 <= 100
          /\ (as_int volume_50_percent 0 = 0 ->
              action (this volume_50_percent) = SetVolume
              \/ action (this volume_50_percent) = SetBrightness)
          /\ ((1 < length (args (this volume_50_percent)))%nat ->
              0 <= as_int volume_50_percent 1 <= 2)).
Proof.
  assert (keyCombination (this volume_50_percent) > 0) as K by (simpl; lia).
  split; [exact K|]. split; [reflexivity|]. split; [discriminate|].
  apply (Valid_volume_brightness sample_HotkeysToString volume_50_percent K).
  - left. reflexivity.
  - discriminate.
Defined.

Lemma Valid_accepts_table_size_witness :
  keyCombination (this (mkWorld (configured 65601 17 []) [])) > 0
  /\ action (this (mkWorld (configured 65601 17 []) [])) = ActionNames_size
  /\ Valid sample_HotkeysToString (mkWorld (configured 65601 17 []) [])
     = Some (true, mkWorld (configured 65601 17 []) []).
Proof.
  split; [simpl; lia|]. split; [reflexivity|].
  apply (Valid_accepts_table_size sample_HotkeysToString
           (mkWorld (configured 65601 17 []) [])).
  - simpl. lia.
  - reflexivity.
Defined.

(** The scenarios of the spec, run on the validator. *)

Example scenario_increase_5 :
  verdict 65601 IncreaseVolume ["5"] = Some (true, []).
Proof. vm_compute. reflexivity. Qed.

Example scenario_increase_0 :
  verdict 65601 IncreaseVolume ["0"]
  = Some (false, ["Invalid hotkey: Win+A -> Increase Volume [ '0' ]" +:+ LF
                  +:+ "Argument increment must be nonzero"]).
Proof. vm_compute. reflexivity. Qed.

Example scenario_set_0 :
  verdict 65601 SetVolume ["0"] = Some (true, []).
Proof. vm_compute. reflexivity. Qed.

Example scenario_percent :
  verdict 65601 IncreaseVolume ["50"; "2"] = Some (true, []).
Proof. vm_compute. reflexivity. Qed.

Example scenario_not_a_number :
  verdict 65601 IncreaseVolume ["abc"]
  = Some (false, ["Invalid hotkey: Win+A -> Increase Volume [ 'abc' ]" +:+ LF
                  +:+ "Argument increment must be nonzero"]).
Proof. vm_compute. reflexivity. Qed.

Example scenario_empty_first_argument :
  verdict 65601 SetBrightness [EmptyString]
  = Some (false, ["Invalid hotkey: Win+A -> Set Brightness [ '' ]" +:+ LF
                  +:+ "No first argument"]).
Proof. vm_compute. reflexivity. Qed.

Example scenario_unknown_type :
  verdict 65601 DecreaseBrightness ["50"; "3"]
  = Some (false, ["Invalid hotkey: Win+A -> Decrease Brightness [ '50' '3' ]" +:+ LF
                  +:+ "Unknown increment type"]).
Proof. vm_compute. reflexivity. Qed.

Example scenario_action_18 :
  verdict 65601 18 []
  = Some (false, ["Invalid hotkey: Win+A -> (none) [ ]" +:+ LF +:+ "Invalid action"]).
Proof. vm_compute. reflexivity. Qed.

(** ** Rendering *)

Lemma append_String (x : ascii) (a b : string) :
  String x a +:+ b = String x (a +:+ b).
Proof. reflexivity. Qed.

Lemma append_empty_l (a : string) : EmptyString +:+ a = a.
Proof. reflexivity. Qed.

Lemma append_assoc (a b c : string) : (a +:+ b) +:+ c = a +:+ (b +:+ c).
Proof.
  induction a as [|x a IH]; [done|].
  rewrite !append_String. f_equal. exact IH.
Qed.

Lemma append_empty_r (a : string) : a +:+ EmptyString = a.
Proof.
  induction a as [|x a IH]; [done|].
  rewrite append_String. f_equal. exact IH.
Qed.

(** The loop over [args] builds the block of quoted arguments. *)
Lemma fold_append_arg (a : list string) (argStrs : string) :
  fold_left append_arg a argStrs = argStrs +:+ quoted_args a.
Proof.
  revert argStrs. induction a as [|arg a IH]; intros argStrs; simpl.
  - by rewrite append_empty_r.
  - rewrite IH. unfold append_arg. by rewrite append_assoc.
Qed.

(** Every action below the size of the table has a name, and no name is
    the placeholder. *)
Lemma ActionNames_entry (a : Z) :
  0 <= a < ActionNames_size ->
  exists name,
    ActionNames !! Z.to_nat a = Some name
    /\ nth (Z.to_nat a) ActionNames EmptyString = name
    /\ name <> "(none)".
Proof.
  intros R. change ActionNames_size with 17 in R.
  assert (Z.to_nat a < 17)%nat as L by lia.
  revert L. generalize (Z.to_nat a). intros n L.
  do 17 (destruct n as [|n]; [eexists; repeat split; discriminate|]).
  lia.
Qed.

Section Rendering.

Variable HotkeysToString : Z -> string.

(** C8: the rendering is the key combination, the separator " -> ", the
    action segment, then the block "[ " ... "]" holding every argument
    between single quotes and followed by a space. The action segment is
    "(none)" exactly when the action is negative or not below the size
    of [ActionNames], and the entry of [ActionNames] at the action
    otherwise. *)
Theorem ToString_shape (h : HotkeyInfo) :
  is_int (action h) ->
  exists segment,
    ToString HotkeysToString h
    = HotkeysToString (keyCombination h) +:+ " -> " +:+ segment
      +:+ " [ " +:+ quoted_args (args h) +:+ "]"
    /\ (segment = "(none)" <-> action h < 0 \/ ActionNames_size <= action h)
    /\ (0 <= action h < ActionNames_size ->
        ActionNames !! Z.to_nat (action h) = Some segment).
Proof.
  intros [Lo Hi]. unfold Std.INT_MIN, Std.INT_MAX in *.
  unfold ToString. rewrite fold_append_arg, append_empty_l.
  change ActionNames_size with 17.
  destruct (0 <=? action h) eqn:Pos; simpl andb.
  - apply Z.leb_le in Pos.
    rewrite Z.mod_small by (unfold Std.UINT_MODULUS; lia).
    destruct (action h <? 17) eqn:In.
    + apply Z.ltb_lt in In.
      destruct (ActionNames_entry (action h)) as (name & E & Nth & Ne);
        [change ActionNames_size with 17; lia|].
      rewrite Nth. exists name. split; [done|]. split; [|done].
      split; [intros ->; by destruct Ne | lia].
    + apply Z.ltb_ge in In. exists "(none)". split; [done|].
      split; [split; [right|]; [lia | done] | lia].
  - apply Z.leb_gt in Pos. exists "(none)". split; [done|].
    split; [split; [left|]; [lia | done] | lia].
Qed.

End Rendering.

Lemma ToString_shape_witness :
  is_int (action (configured 65601 IncreaseVolume ["50"; "2"]))
  /\ exists segment,
      ToString sample_HotkeysToString (configured 65601 IncreaseVolume ["50"; "2"])
      = "Win+A" +:+ " -> " +:+ segment +:+ " [ "
        +:+ quoted_args ["50"; "2"] +:+ "]"
      /\ (segment = "(none)" <-> IncreaseVolume < 0 \/ ActionNames_size <= IncreaseVolume)
      /\ (0 <= IncreaseVolume < ActionNames_size ->
          ActionNames !! Z.to_nat IncreaseVolume = Some segment).
Proof.
  assert (is_int (action (configured 65601 IncreaseVolume ["50"; "2"]))) as I
    by (vm_compute; split; discriminate).
  split; [exact I|].
  exact (ToString_shape sample_HotkeysToString
           (configured 65601 IncreaseVolume ["50"; "2"]) I).
Defined.

Example ToString_two_arguments :
  ToString sample_HotkeysToString (configured 65601 IncreaseVolume ["50"; "2"])
  = "Win+A -> Increase Volume [ '50' '2' ]".
Proof. reflexivity. Qed.

Example ToString_no_argument :
  ToString sample_HotkeysToString (configured 65601 Exit [])
  = "Win+A -> Exit 3RVX [ ]".
Proof. reflexivity. Qed.

Example ToString_action_17 :
  ToString sample_HotkeysToString (configured 65601 17 ["x"])
  = "Win+A -> (none) [ 'x' ]".
Proof. reflexivity. Qed.

Example ToString_negative_action :
  ToString sample_HotkeysToString (configured 65601 (-1) [])
  = "Win+A -> (none) [ ]".
Proof. reflexivity. Qed.

(** * Further properties of the descriptor *)

(** ** Presence of arguments *)

(** [HasArgs] is [HasArg(0)], and an index below a present one is
    present. *)
Theorem HasArg_downward (h : HotkeyInfo) (i j : N) :
  HasArgs h = HasArg h 0
  /\ ((j <= i)%N -> HasArg h i = true -> HasArg h j = true)
  /\ (HasArg h i = true -> HasArgs h = true).
Proof.
  assert (HasArgs h = HasArg h 0) as Z0.
  { unfold HasArgs, HasArg. case_bool_decide as E; [done|].
    destruct (args h); [done|]. simpl. symmetry. apply Z.leb_le. lia. }
  split; [exact Z0|]. split.
  - rewrite !HasArg_true. lia.
  - rewrite Z0, !HasArg_true. lia.
Qed.

(** ** Allocation *)

Lemma set_args_same (h : HotkeyInfo) : set_args (args h) h = h.
Proof. by destruct h. Qed.

Lemma pad_length (n : nat) (a : list string) :
  length (pad n a) = Nat.max n (length a).
Proof. unfold pad. rewrite length_app, length_replicate. lia. Qed.

Lemma pad_small (n : nat) (a : list string) :
  (n <= length a)%nat -> pad n a = a.
Proof.
  intros L. unfold pad. replace (n - length a)%nat with 0%nat by lia.
  simpl. apply app_nil_r.
Qed.

Lemma pad_pad (n m : nat) (a : list string) :
  pad m (pad n a) = pad (Nat.max n m) a.
Proof.
  unfold pad at 1. rewrite pad_length. unfold pad.
  rewrite <- app_assoc, <- replicate_add. f_equal. f_equal. lia.
Qed.

(** [AllocateArg] in one equation: the arguments are padded up to
    [newSize], the wrapped [argIdx + 1]. *)
Lemma AllocateArg_run (i : N) (w : World) :
  AllocateArg i w
  = Some (tt,
          mkWorld
            (set_args
               (pad (Z.to_nat ((Z.of_N i + 1) mod Std.UINT_MODULUS)) (args (this w)))
               (this w))
            (clog w)).
Proof.
  unfold AllocateArg. run.
  destruct (_ <=? _) eqn:Le.
  - apply Z.leb_le in Le. rewrite pad_small by lia.
    by rewrite set_args_same, world_eta.
  - reflexivity.
Qed.

Lemma newSize_in_range (i : N) :
  Z.of_N i + 1 < Std.UINT_MODULUS ->
  Z.to_nat ((Z.of_N i + 1) mod Std.UINT_MODULUS) = S (N.to_nat i).
Proof. intros R. unfold Std.UINT_MODULUS in *. rewrite Z.mod_small by lia. lia. Qed.

(** X1: for an index below the largest [unsigned int], [AllocateArg]
    makes the index present and never shrinks: the size becomes the larger
    of the old size and [argIdx + 1], the old arguments stay where they
    were, the new ones are empty strings, and nothing else changes. *)
Theorem AllocateArg_grows (w : World) (i : N) :
  Z.of_N i + 1 < Std.UINT_MODULUS ->
  exists w',
    AllocateArg i w = Some (tt, w')
    /\ length (args (this w')) = Nat.max (length (args (this w))) (S (N.to_nat i))
    /\ (forall j, (j < length (args (this w)))%nat ->
                  args (this w') !! j = args (this w) !! j)
    /\ (forall j, (length (args (this w)) <= j < length (args (this w')))%nat ->
                  args (this w') !! j = Some EmptyString)
    /\ HasArg (this w') i = true
    /\ keyCombination (this w') = keyCombination (this w)
    /\ action (this w') = action (this w)
    /\ _intArgs (this w') = _intArgs (this w)
    /\ _doubleArgs (this w') = _doubleArgs (this w)
    /\ _cache (this w') = _cache (this w)
    /\ clog w' = clog w.
Proof.
  intros R. eexists. split; [apply AllocateArg_run|].
  rewrite (newSize_in_range i R). simpl.
  assert (length (pad (S (N.to_nat i)) (args (this w)))
          = Nat.max (length (args (this w))) (S (N.to_nat i))) as Len
    by (rewrite pad_length; lia).
  split; [exact Len|]. split; [|split; [|split]].
  - intros j L. unfold pad. by rewrite lookup_app_l.
  - rewrite Len. intros j [Lo Hi]. unfold pad.
    rewrite lookup_app_r by lia. apply lookup_replicate_2. lia.
  - apply HasArg_true. simpl. rewrite Len. lia.
  - done.
Qed.

Lemma AllocateArg_grows_witness :
  Z.of_N 2 + 1 < Std.UINT_MODULUS
  /\ exists w',
      AllocateArg 2 (mkWorld (configured 65601 Run ["notepad"]) []) = Some (tt, w')
      /\ args (this w') = ["notepad"; EmptyString; EmptyString].
Proof.
  assert (Z.of_N 2 + 1 < Std.UINT_MODULUS) as R by (vm_compute; reflexivity).
  split; [exact R|].
  destruct (AllocateArg_grows (mkWorld (configured 65601 Run ["notepad"]) []) 2 R)
    as (w' & Run & _).
  exists w'. split; [exact Run|].
  rewrite AllocateArg_run in Run. by injection Run as <-.
Defined.

(** X2: at the largest [unsigned int], [argIdx + 1] wraps to 0 and
    [AllocateArg] allocates nothing: the descriptor is unchanged, and the
    index is still absent from a vector of fewer than 2^32 arguments. *)
Theorem AllocateArg_UINT_MAX (w : World) :
  Z.of_nat (length (args (this w))) < Std.UINT_MODULUS ->
  AllocateArg 4294967295 w = Some (tt, w)
  /\ HasArg (this w) 4294967295 = false.
Proof.
  intros L. split.
  - rewrite AllocateArg_run.
    replace ((Z.of_N 4294967295 + 1) mod Std.UINT_MODULUS) with 0 by done.
    rewrite pad_small by (simpl; lia). by rewrite set_args_same, world_eta.
  - apply not_true_iff_false. rewrite HasArg_true.
    unfold Std.UINT_MODULUS in L. lia.
Qed.

Lemma AllocateArg_UINT_MAX_witness :
  Z.of_nat (length (args (this run_notepad))) < Std.UINT_MODULUS
  /\ AllocateArg 4294967295 run_notepad = Some (tt, run_notepad)
  /\ HasArg (this run_notepad) 4294967295 = false.
Proof.
  assert (Z.of_nat (length (args (this run_notepad))) < Std.UINT_MODULUS) as L
    by (vm_compute; reflexivity).
  split; [exact L|]. exact (AllocateArg_UINT_MAX run_notepad L).
Defined.

(** X3: below the largest [unsigned int], two allocations in a row are
    the allocation of the larger index; in particular a repeated
    allocation changes nothing. *)
Theorem AllocateArg_twice (w : World) (i j : N) :
  Z.of_N i + 1 < Std.UINT_MODULUS ->
  Z.of_N j + 1 < Std.UINT_MODULUS ->
  (AllocateArg i ;; AllocateArg j) w = AllocateArg (N.max i j) w
  /\ (AllocateArg i ;; AllocateArg i) w = AllocateArg i w.
Proof.
  intros Ri Rj.
  assert (forall k, Z.of_N k + 1 < Std.UINT_MODULUS -> Z.of_N i + 1 < Std.UINT_MODULUS ->
            (AllocateArg i ;; AllocateArg k) w = AllocateArg (N.max i k) w) as Both.
  { intros k Rk _. unfold bind. rewrite !AllocateArg_run. cbn [this clog args set_args].
    assert (Z.of_N (N.max i k) + 1 < Std.UINT_MODULUS) as Rm
      by (destruct (N.max_spec i k) as [[_ ->] | [_ ->]]; assumption).
    rewrite (newSize_in_range i Ri), (newSize_in_range k Rk),
      (newSize_in_range _ Rm), pad_pad.
    unfold set_args. simpl. do 4 f_equal. f_equal. lia. }
  split; [by apply Both|].
  rewrite (Both i Ri Ri). by rewrite N.max_id.
Qed.

Lemma AllocateArg_twice_witness :
  Z.of_N 2 + 1 < Std.UINT_MODULUS
  /\ Z.of_N 1 + 1 < Std.UINT_MODULUS
  /\ (AllocateArg 2 ;; AllocateArg 1) run_notepad = AllocateArg 2 run_notepad.
Proof.
  assert (Z.of_N 2 + 1 < Std.UINT_MODULUS) as R2 by (vm_compute; reflexivity).
  assert (Z.of_N 1 + 1 < Std.UINT_MODULUS) as R1 by (vm_compute; reflexivity).
  split; [exact R2|]. split; [exact R1|].
  exact (proj1 (AllocateArg_twice run_notepad 2 1 R2 R1)).
Defined.

(** ** The accessors and their caches *)

Lemma remember_double_frame (h : HotkeyInfo) (i : N) (v : float) :
  keyCombination (remember_double h i v) = keyCombination h
  /\ action (remember_double h i v) = action h
  /\ args (remember_double h i v) = args h
  /\ _intArgs (remember_double h i v) = _intArgs h
  /\ _cache (remember_double h i v) = _cache h.
Proof. unfold remember_double. by destruct (_cache h) eqn:C. Qed.

(** Remembering the answer just given changes nothing the second time,
    and the answer is what the accessor gives next. *)
Lemma remember_int_again (h : HotkeyInfo) (i : N) (parsed : Z) :
  let v := cached_int h i parsed in
  cached_int (remember_int h i v) i parsed = v
  /\ remember_int (remember_int h i v) i v = remember_int h i v.
Proof.
  unfold cached_int, remember_int. destruct (_cache h) eqn:C; simpl; [|by rewrite C].
  rewrite C. simpl. rewrite lookup_insert_eq. simpl. split; [done|].
  unfold set_intArgs. simpl. by rewrite insert_insert_eq.
Qed.

Lemma remember_double_again (h : HotkeyInfo) (i : N) (parsed : float) :
  let v := cached_double h i parsed in
  cached_double (remember_double h i v) i parsed = v
  /\ remember_double (remember_double h i v) i v = remember_double h i v.
Proof.
  unfold cached_double, remember_double. destruct (_cache h) eqn:C; simpl; [|by rewrite C].
  rewrite C. simpl. rewrite lookup_insert_eq. simpl. split; [done|].
  unfold set_doubleArgs. simpl. by rewrite insert_insert_eq.
Qed.

Lemma cached_int_after_double (h : HotkeyInfo) (j i : N) (d : float) (parsed : Z) :
  cached_int (remember_double h j d) i parsed = cached_int h i parsed.
Proof.
  unfold cached_int.
  destruct (remember_double_frame h j d) as (_ & _ & _ & -> & ->). reflexivity.
Qed.

Lemma cached_double_after_int (h : HotkeyInfo) (i j : N) (v : Z) (parsed : float) :
  cached_double (remember_int h i v) j parsed = cached_double h j parsed.
Proof.
  unfold cached_double.
  destruct (remember_int_frame h i v) as (_ & _ & _ & -> & ->). reflexivity.
Qed.

Section Accessors.

Variable stod : string -> Std.exception + float.

(** X4: after [AllocateArg(i)], for an index below the largest
    [unsigned int], [ArgToInt(i)] has an answer; on a slot the allocation
    created, with nothing cached for it, the answer is 0. *)
Theorem AllocateArg_then_read (w : World) (i : N) :
  Z.of_N i + 1 < Std.UINT_MODULUS ->
  exists v w',
    (AllocateArg i ;; ArgToInt i) w = Some (v, w')
    /\ ((length (args (this w)) <= N.to_nat i)%nat ->
        _cache (this w) = false \/ _intArgs (this w) !! i = None ->
        v = 0).
Proof.
  intros R. unfold bind at 1. rewrite AllocateArg_run, (newSize_in_range i R).
  set (w1 := mkWorld _ _).
  assert ((N.to_nat i < length (args (this w1)))%nat) as L
    by (simpl; rewrite pad_length; lia).
  destruct (lookup_in_range _ _ L) as [s A].
  eexists _, _. split; [apply (ArgToInt_run i w1 s A)|].
  intros New Miss. simpl in A. unfold pad in A.
  rewrite lookup_app_r in A by lia.
  apply lookup_replicate_1 in A as [-> _].
  unfold cached_int. simpl.
  destruct Miss as [-> | ->]; [done|]. by destruct (_cache (this w)).
Qed.

Lemma AllocateArg_then_read_witness :
  Z.of_N 1 + 1 < Std.UINT_MODULUS
  /\ exists w',
      (AllocateArg 1 ;; ArgToInt 1) run_notepad = Some (0, w').
Proof.
  assert (Z.of_N 1 + 1 < Std.UINT_MODULUS) as R by (vm_compute; reflexivity).
  split; [exact R|].
  destruct (AllocateArg_then_read run_notepad 1 R) as (v & w' & Run & Zero).
  exists w'. rewrite Run. rewrite (Zero ltac:(simpl; lia) ltac:(by right)).
  reflexivity.
Defined.

(** X5: [ClearArgCache] empties both caches and leaves the flag, the
    arguments and the rest as they were; the next call of each accessor
    within [args] converts the argument afresh, whatever was cached. *)
Theorem ClearArgCache_reparses (w : World) (i : N) (s : string) :
  args (this w) !! N.to_nat i = Some s ->
  exists w1,
    ClearArgCache w = Some (tt, w1)
    /\ _intArgs (this w1) = ∅
    /\ _doubleArgs (this w1) = ∅
    /\ _cache (this w1) = _cache (this w)
    /\ args (this w1) = args (this w)
    /\ keyCombination (this w1) = keyCombination (this w)
    /\ action (this w1) = action (this w)
    /\ clog w1 = clog w
    /\ (exists w2, ArgToInt i w1 = Some (catch_zero 0 (Std.stoi s 10), w2))
    /\ (exists w2, HexArgToInt i w1 = Some (catch_zero 0 (Std.stoi s 16), w2))
    /\ (exists w2,
          ArgToDouble stod i w1 = Some (catch_zero PrimFloat.zero (stod s), w2)).
Proof.
  intros A. eexists. split; [reflexivity|]. simpl.
  do 7 (split; [reflexivity|]).
  split; [|split]; eexists.
  - rewrite (ArgToInt_run i _ s) by exact A. unfold cached_int. simpl.
    rewrite lookup_empty. by destruct (_cache (this w)).
  - rewrite (HexArgToInt_run i _ s) by exact A. unfold cached_int. simpl.
    rewrite lookup_empty. by destruct (_cache (this w)).
  - rewrite (ArgToDouble_run stod i _ s) by exact A. unfold cached_double. simpl.
    rewrite lookup_empty. by destruct (_cache (this w)).
Qed.

(** X6: an accessor called twice in a row within [args] gives the same
    answer twice, and the second call leaves the descriptor as the first
    left it, with caching on or off. *)
Theorem accessors_repeatable (w : World) (i : N) (s : string) :
  args (this w) !! N.to_nat i = Some s ->
  (exists v w1, ArgToInt i w = Some (v, w1) /\ ArgToInt i w1 = Some (v, w1))
  /\ (exists v w1, HexArgToInt i w = Some (v, w1) /\ HexArgToInt i w1 = Some (v, w1))
  /\ (exists v w1,
        ArgToDouble stod i w = Some (v, w1) /\ ArgToDouble stod i w1 = Some (v, w1)).
Proof.
  intros A. split; [|split]; eexists _, _.
  - split; [apply (ArgToInt_run i w s A)|].
    destruct (remember_int_frame (this w) i
                (cached_int (this w) i (catch_zero 0 (Std.stoi s 10))))
      as (_ & _ & A' & _).
    rewrite (ArgToInt_run i _ s) by (simpl; by rewrite A').
    simpl.
    destruct (remember_int_again (this w) i (catch_zero 0 (Std.stoi s 10)))
      as [-> ->].
    reflexivity.
  - split; [apply (HexArgToInt_run i w s A)|].
    destruct (remember_int_frame (this w) i
                (cached_int (this w) i (catch_zero 0 (Std.stoi s 16))))
      as (_ & _ & A' & _).
    rewrite (HexArgToInt_run i _ s) by (simpl; by rewrite A').
    simpl.
    destruct (remember_int_again (this w) i (catch_zero 0 (Std.stoi s 16)))
      as [-> ->].
    reflexivity.
  - split; [apply (ArgToDouble_run stod i w s A)|].
    destruct (remember_double_frame (this w) i
                (cached_double (this w) i (catch_zero PrimFloat.zero (stod s))))
      as (_ & _ & A' & _).
    rewrite (ArgToDouble_run stod i _ s) by (simpl; by rewrite A').
    simpl.
    destruct (remember_double_again (this w) i (catch_zero PrimFloat.zero (stod s)))
      as [-> ->].
    reflexivity.
Qed.

(** X7: with caching off an accessor within [args] converts the argument
    afresh on every call, whatever the caches hold, and changes nothing. *)
Theorem cache_off_reads_fresh (w : World) (i : N) (s : string) :
  _cache (this w) = false ->
  args (this w) !! N.to_nat i = Some s ->
  ArgToInt i w = Some (catch_zero 0 (Std.stoi s 10), w)
  /\ HexArgToInt i w = Some (catch_zero 0 (Std.stoi s 16), w)
  /\ ArgToDouble stod i w = Some (catch_zero PrimFloat.zero (stod s), w).
Proof.
  intros C A.
  rewrite (ArgToInt_run i w s A), (HexArgToInt_run i w s A),
    (ArgToDouble_run stod i w s A).
  unfold cached_int, remember_int, cached_double, remember_double.
  rewrite C. by rewrite world_eta.
Qed.

(** X8: the integer cache and the double cache are apart: a call of
    [ArgToDouble] changes no answer of [ArgToInt], and a call of
    [ArgToInt] none of [ArgToDouble], at the same index or another. *)
Theorem int_double_caches_independent (w : World) (i j : N) (si sj : string) :
  args (this w) !! N.to_nat i = Some si ->
  args (this w) !! N.to_nat j = Some sj ->
  (exists v w1 w2,
      ArgToInt i w = Some (v, w1)
      /\ (ArgToDouble stod j ;; ArgToInt i) w = Some (v, w2))
  /\ (exists d w1 w2,
      ArgToDouble stod j w = Some (d, w1)
      /\ (ArgToInt i ;; ArgToDouble stod j) w = Some (d, w2)).
Proof.
  intros Ai Aj. split; eexists _, _, _.
  - split; [apply (ArgToInt_run i w si Ai)|].
    unfold bind. rewrite (ArgToDouble_run stod j w sj Aj).
    destruct (remember_double_frame (this w) j
                (cached_double (this w) j (catch_zero PrimFloat.zero (stod sj))))
      as (_ & _ & A' & I' & C').
    rewrite (ArgToInt_run i _ si) by (simpl; by rewrite A').
    simpl. rewrite !cached_int_after_double. reflexivity.
  - split; [apply (ArgToDouble_run stod j w sj Aj)|].
    unfold bind. rewrite (ArgToInt_run i w si Ai).
    destruct (remember_int_frame (this w) i
                (cached_int (this w) i (catch_zero 0 (Std.stoi si 10))))
      as (_ & _ & A' & D' & C').
    rewrite (ArgToDouble_run stod j _ sj) by (simpl; by rewrite A').
    simpl. rewrite !cached_double_after_int. reflexivity.
Qed.

End Accessors.

Lemma ClearArgCache_reparses_witness :
  args (this vk_ff_cached) !! N.to_nat 0 = Some "ff"
  /\ exists w1 w2,
      ClearArgCache vk_ff_cached = Some (tt, w1)
      /\ ArgToInt 0 w1 = Some (0, w2).
Proof.
  split; [reflexivity|].
  destruct (ClearArgCache_reparses sample_stod vk_ff_cached 0 "ff" eq_refl)
    as (w1 & Run & _ & _ & _ & _ & _ & _ & _ & (w2 & Dec) & _).
  exists w1, w2. split; [exact Run | exact Dec].
Defined.

Lemma accessors_repeatable_witness :
  args (this vk_10_caching) !! N.to_nat 0 = Some "10"
  /\ exists v w1,
      HexArgToInt 0 vk_10_caching = Some (v, w1)
      /\ HexArgToInt 0 w1 = Some (v, w1).
Proof.
  split; [reflexivity|].
  exact (proj1 (proj2 (accessors_repeatable sample_stod vk_10_caching 0 "10" eq_refl))).
Defined.

Lemma cache_off_reads_fresh_witness :
  _cache (this volume_50_percent) = false
  /\ args (this volume_50_percent) !! N.to_nat 1 = Some "2"
  /\ ArgToInt 1 volume_50_percent = Some (2, volume_50_percent).
Proof.
  split; [reflexivity|]. split; [reflexivity|].
  exact (proj1 (cache_off_reads_fresh sample_stod volume_50_percent 1 "2"
                  eq_refl eq_refl)).
Defined.

Lemma int_double_caches_independent_witness :
  args (this vk_10_caching) !! N.to_nat 0 = Some "10"
  /\ exists v w1 w2,
      ArgToInt 0 vk_10_caching = Some (v, w1)
      /\ (ArgToDouble sample_stod 0 ;; ArgToInt 0) vk_10_caching = Some (v, w2).
Proof.
  split; [reflexivity|].
  exact (proj1 (int_double_caches_independent sample_stod vk_10_caching 0 0
                  "10" "10" eq_refl eq_refl)).
Defined.

(** With both caches on the same argument: the double accessor converts
    on its own after the integer one answered, where the hexadecimal
    accessor would repeat the cached integer. *)
Example double_after_int_on_10 :
  option_map fst
    ((a <- ArgToInt 0 ;; d <- ArgToDouble sample_stod 0 ;; b <- HexArgToInt 0 ;;
      ret (a, d, b)) vk_10_caching)
  = Some (10, PrimFloat.of_uint63 10, 10).
Proof. vm_compute. reflexivity. Qed.

(** ** The validator as a whole *)

Lemma as_int_view (w : World) (j : N) : as_int w j = int_view (this w) j.
Proof.
  unfold as_int, int_view.
  destruct (args (this w) !! N.to_nat j) as [s|] eqn:A.
  - by rewrite (ArgToInt_run j w s A).
  - unfold ArgToInt, cached_int, Std.count, Std.index. run.
    destruct (_cache (this w)); simpl.
    + destruct (_intArgs (this w) !! j); simpl; [done | by rewrite A].
    + by rewrite A.
Qed.

Lemma int_view_remember (h : HotkeyInfo) (i j : N) :
  int_view (remember_int h i (int_view h i)) j = int_view h j.
Proof.
  unfold int_view at 1 3.
  destruct (remember_int_frame h i (int_view h i)) as (_ & _ & -> & _ & C).
  unfold cached_int. rewrite C. destruct (_cache h) eqn:E; [|done].
  destruct (decide (i = j)) as [<- | D].
  - rewrite remember_int_lookup by done. simpl.
    unfold int_view, cached_int. by rewrite E.
  - by rewrite remember_int_other.
Qed.

Lemma touched_refl (h : HotkeyInfo) : touched h h.
Proof. by repeat split. Qed.

Lemma touched_step (h h' : HotkeyInfo) (i : N) :
  touched h h' -> touched h (remember_int h' i (int_view h i)).
Proof.
  intros ((K & Ac & Ar & C & D) & V & Off).
  destruct (remember_int_frame h' i (int_view h i)) as (K' & Ac' & Ar' & D' & C').
  split; [|split].
  - unfold same_binding. by rewrite K', Ac', Ar', D', C'.
  - intros j. rewrite <- (V i), int_view_remember. apply V.
  - intros E. rewrite (Off E). unfold remember_int. by rewrite E.
Qed.

Section Verdict.

Variable HotkeysToString : Z -> string.

Lemma ToString_same_binding (h h' : HotkeyInfo) :
  same_binding h h' -> ToString HotkeysToString h' = ToString HotkeysToString h.
Proof. intros (K & Ac & Ar & _). unfold ToString. by rewrite K, Ac, Ar. Qed.

Lemma accepts_same_binding (h h' : HotkeyInfo) (a0 a1 : Z) :
  same_binding h h' -> accepts h' a0 a1 = accepts h a0 a1.
Proof. intros (K & Ac & Ar & _). unfold accepts. by rewrite K, Ac, Ar. Qed.

Lemma settled_ok (w : World) (h' : HotkeyInfo) :
  touched (this w) h' -> validated HotkeysToString w (mkWorld h' (clog w)) true.
Proof. intros T. by split. Qed.

Lemma settled_bad (w : World) (h' : HotkeyInfo) (reason : string) :
  touched (this w) h' -> In reason reasons ->
  validated HotkeysToString w
    (mkWorld h' (clog w ++ [log_line HotkeysToString h' reason])) false.
Proof.
  intros T R. split; [exact T|]. exists reason. split; [exact R|].
  simpl. unfold log_line. by rewrite (ToString_same_binding _ _ (proj1 T)).
Qed.

Lemma ArgToInt_view (i : N) (w : World) :
  (N.to_nat i < length (args (this w)))%nat ->
  ArgToInt i w
  = Some (int_view (this w) i,
          mkWorld (remember_int (this w) i (int_view (this w) i)) (clog w)).
Proof.
  intros L. destruct (lookup_in_range _ _ L) as [s A].
  rewrite (ArgToInt_run i w s A). unfold int_view. by rewrite A.
Qed.

(** The descriptor a branch of [Valid] ends on is the first one touched. *)
Ltac still_touched :=
  repeat match goal with x := _ |- _ => subst x end;
  repeat apply touched_step; apply touched_refl.

(** Closes a branch of [Valid] that ends in [return false]. *)
Ltac rejected :=
  simpl; eexists; split; [reflexivity|];
  apply settled_bad; [still_touched | simpl; tauto].

(** Closes a branch of [Valid] that ends in [return true]. *)
Ltac accepted :=
  simpl; eexists; split; [reflexivity|];
  apply settled_ok; still_touched.

Lemma Valid_verdict (w : World) :
  exists w',
    Valid HotkeysToString w = Some (accepts (this w) (as_int w 0) (as_int w 1), w')
    /\ validated HotkeysToString w w' (accepts (this w) (as_int w 0) (as_int w 1)).
Proof.
  rewrite !as_int_view. unfold Valid, accepts. run.
  destruct (keyCombination (this w) <=? 0) eqn:K; [rejected|].
  destruct ((action (this w) <? 0) || (ActionNames_size <? action (this w))) eqn:B;
    [rejected|].
  destruct ((action (this w) =? IncreaseVolume) || _) eqn:Vol.
  - destruct (args (this w)) as [|arg0 rest] eqn:A.
    { rewrite (HasArgs_nil _ A). accepted. }
    rewrite (HasArgs_cons _ _ _ A). simpl. rewrite A. simpl.
    destruct (String.eqb arg0 EmptyString) eqn:E0; [rejected|].
    rewrite (ArgToInt_view 0 w) by (rewrite A; simpl; lia). simpl.
    set (h := this w) in *. set (a0 := int_view h 0).
    destruct ((a0 <? 0) || (100 <? a0)) eqn:Rng; [rejected|].
    destruct ((a0 =? 0) && negb (action h =? SetVolume)
              && negb (action h =? SetBrightness)) eqn:Nz; [rejected|].
    simpl.
    set (h0 := remember_int h 0 a0).
    assert (args h0 = arg0 :: rest) as A0
      by (rewrite <- A; apply remember_int_frame).
    destruct rest as [|arg1 rest'].
    { assert (HasArg h0 1 = false) as ->
        by (apply not_true_iff_false; rewrite HasArg_true, A0; simpl; lia).
      accepted. }
    assert (HasArg h0 1 = true) as ->
      by (rewrite HasArg_true, A0; simpl; lia).
    rewrite (ArgToInt_view 1 (mkWorld h0 (clog w))) by (simpl; rewrite A0; simpl; lia).
    simpl. unfold h0, a0. rewrite int_view_remember. fold a0. fold h0.
    destruct ((int_view h 1 <? 0) || (2 <? int_view h 1)) eqn:Ty;
      [rejected | accepted].
  - destruct ((action (this w) =? EjectDrive) || _) eqn:Req; [|accepted].
    destruct (args (this w)) as [|arg0 rest] eqn:A.
    + rewrite (HasArgs_nil _ A). rejected.
    + rewrite (HasArgs_cons _ _ _ A). accepted.
Qed.


(** What an accepting verdict says about the fields. *)
Lemma accepts_fields (h : HotkeyInfo) (a0 a1 : Z) :
  accepts h a0 a1 = true ->
  keyCombination h > 0
  /\ 0 <= action h <= ActionNames_size
  /\ (is_case [EjectDrive; MediaKey; Run] (action h) = true -> args h <> []).
Proof.
  unfold accepts. intros Acc.
  apply andb_true_iff in Acc as [Acc Sw]. apply andb_true_iff in Acc as [K B].
  apply negb_true_iff in K, B. apply Z.leb_gt in K. apply range_rule in B.
  split; [lia|]. split; [exact B|].
  intros Req. rewrite Req in Sw.
  destruct (is_case [IncreaseVolume; DecreaseVolume; SetVolume;
                     IncreaseBrightness; DecreaseBrightness; SetBrightness]
              (action h)) eqn:Vol.
  - exfalso. revert Vol Req. unfold is_case. simpl.
    destruct (action h) as [|p|p]; try discriminate;
      repeat (destruct p as [p|p|]; try discriminate).
  - apply negb_true_iff in Sw. by apply bool_decide_eq_false in Sw.
Qed.

(** What an accepting verdict says about the arguments of a volume or
    brightness action. *)
Lemma accepts_volume (h : HotkeyInfo) (a0 a1 : Z) (arg0 : string) (rest : list string) :
  is_case [IncreaseVolume; DecreaseVolume; SetVolume;
           IncreaseBrightness; DecreaseBrightness; SetBrightness]
    (action h) = true ->
  args h = arg0 :: rest ->
  accepts h a0 a1 = true ->
  arg0 <> EmptyString
  /\ 0 <= a0 <= 100
  /\ (a0 = 0 -> action h = SetVolume \/ action h = SetBrightness)
  /\ (rest <> [] -> 0 <= a1 <= 2).
Proof.
  unfold accepts. intros -> -> Acc.
  apply andb_true_iff in Acc as [_ Acc].
  apply andb_true_iff in Acc as [Acc Ty]. apply andb_true_iff in Acc as [Acc Nz].
  apply andb_true_iff in Acc as [E0 Rng].
  apply negb_true_iff in E0, Rng, Nz.
  apply String.eqb_neq in E0. apply range_rule in Rng.
  pose proof (proj1 (nonzero_rule HotkeysToString _ _) Nz) as Nz'.
  repeat split; try done; try lia.
  - destruct rest; [done|]. apply negb_true_iff, range_rule in Ty. lia.
  - destruct rest; [done|]. apply negb_true_iff, range_rule in Ty. lia.
Qed.

(** [VolumeArgType] in one equation. *)
Lemma VolumeArgType_run (w : World) :
  VolumeArgType w
  = match args (this w) with
    | [] => Some (NoArgs, w)
    | [_] => Some (Units, w)
    | _ :: _ :: _ => ArgToInt 1 w
    end.
Proof.
  unfold VolumeArgType. run.
  destruct (args (this w)) as [|a [|b rest]] eqn:A.
  - by rewrite (HasArgs_nil _ A).
  - rewrite (HasArgs_cons _ _ _ A). simpl.
    assert (HasArg (this w) 1 = false) as ->
      by (apply not_true_iff_false; rewrite HasArg_true, A; simpl; lia).
    reflexivity.
  - rewrite (HasArgs_cons _ _ _ A). simpl.
    assert (HasArg (this w) 1 = true) as ->
      by (rewrite HasArg_true, A; simpl; lia).
    simpl. by destruct (ArgToInt 1 w) as [[v w']|].
Qed.

(** X10: with a positive key combination, an action below 0 or above the
    size of [ActionNames] is rejected with the reason "Invalid action",
    before any look at the arguments: one line is logged and the
    descriptor is left as it was. *)
Theorem Valid_invalid_action (w : World) :
  keyCombination (this w) > 0 ->
  action (this w) < 0 \/ ActionNames_size < action (this w) ->
  Valid HotkeysToString w
  = Some (false,
          mkWorld (this w)
            (clog w ++ ["Invalid hotkey: " +:+ ToString HotkeysToString (this w)
                        +:+ LF +:+ "Invalid action"])).
Proof.
  intros K Act.
  assert ((keyCombination (this w) <=? 0) = false) as K' by (apply Z.leb_gt; lia).
  assert ((action (this w) <? 0) || (ActionNames_size <? action (this w)) = true) as B.
  { apply orb_true_iff. rewrite !Z.ltb_lt. exact Act. }
  unfold Valid. run. by rewrite K', B.
Qed.

(** X11: with a positive key combination, the actions that are neither
    volume or brightness changes nor EjectDrive, MediaKey or Run are
    accepted whatever the arguments are, and nothing is read, cached or
    logged. *)
Theorem Valid_unchecked_actions (w : World) :
  keyCombination (this w) > 0 ->
  In (action (this w))
     [Mute; VolumeSlider; EjectLastDisk; BrightnessSlider; VirtualKey;
      ToggleOSD; OpenSettings; Exit] ->
  Valid HotkeysToString w = Some (true, w).
Proof.
  intros K Act.
  assert ((keyCombination (this w) <=? 0) = false) as K' by (apply Z.leb_gt; lia).
  unfold Valid. run. rewrite K'.
  simpl in Act.
  destruct Act as [<- | [<- | [<- | [<- | [<- | [<- | [<- | [<- | []]]]]]]]];
    reflexivity.
Qed.

(** X12: [Valid] returns on every descriptor (it never indexes [args] out
    of range). It leaves the key combination, the action, the arguments,
    the caching flag and the double cache as they were, and the whole
    descriptor when caching is off; what [ArgToInt] answers at any index
    is the same afterwards. It logs nothing when it accepts and exactly
    one line, the rendering of the descriptor and one of its seven
    reasons, when it rejects. *)
Theorem Valid_outcome (w : World) :
  exists b w',
    Valid HotkeysToString w = Some (b, w')
    /\ keyCombination (this w') = keyCombination (this w)
    /\ action (this w') = action (this w)
    /\ args (this w') = args (this w)
    /\ _cache (this w') = _cache (this w)
    /\ _doubleArgs (this w') = _doubleArgs (this w)
    /\ (forall i, as_int w' i = as_int w i)
    /\ (_cache (this w) = false -> this w' = this w)
    /\ (b = true -> clog w' = clog w)
    /\ (b = false ->
        exists reason,
          In reason reasons
          /\ clog w' = clog w ++ ["Invalid hotkey: " +:+ ToString HotkeysToString (this w)
                                  +:+ LF +:+ reason]).
Proof.
  destruct (Valid_verdict w) as (w' & Run & ((K & Ac & Ar & C & D) & V & Off) & Log).
  eexists _, w'. split; [exact Run|].
  do 5 (split; [assumption|]).
  split; [intros i; by rewrite !as_int_view|].
  split; [exact Off|].
  destruct (accepts _ _ _); split; try discriminate; intros _; exact Log.
Qed.

(** X13: a second validation gives the verdict of the first, with caching
    on or off. *)
Theorem Valid_repeatable (w w' : World) (b : bool) :
  Valid HotkeysToString w = Some (b, w') ->
  exists w'', Valid HotkeysToString w' = Some (b, w'').
Proof.
  intros Run.
  destruct (Valid_verdict w) as (w1 & Run1 & (Same & V & _) & _).
  rewrite Run in Run1. injection Run1 as -> <-.
  destruct (Valid_verdict w') as (w2 & Run2 & _).
  exists w2. rewrite Run2. do 2 f_equal.
  rewrite !as_int_view, !V. by apply accepts_same_binding.
Qed.

(** X14: an accepted descriptor has a positive key combination and an
    action from 0 to the size of [ActionNames] (the size included); with
    EjectDrive, MediaKey or Run it has an argument; with a volume or
    brightness action and arguments, its first argument is not empty. *)
Theorem Valid_sound (w w' : World) :
  Valid HotkeysToString w = Some (true, w') ->
  keyCombination (this w) > 0
  /\ 0 <= action (this w) <= ActionNames_size
  /\ (action (this w) = EjectDrive \/ action (this w) = MediaKey
      \/ action (this w) = Run -> args (this w) <> [])
  /\ (action (this w) = IncreaseVolume \/ action (this w) = DecreaseVolume
      \/ action (this w) = SetVolume \/ action (this w) = IncreaseBrightness
      \/ action (this w) = DecreaseBrightness \/ action (this w) = SetBrightness ->
      forall arg0 rest, args (this w) = arg0 :: rest -> arg0 <> EmptyString).
Proof.
  intros Run.
  destruct (Valid_verdict w) as (w1 & Run1 & _).
  rewrite Run in Run1. injection Run1 as Acc _. symmetry in Acc.
  destruct (accepts_fields _ _ _ Acc) as (K & B & Req).
  split; [exact K|]. split; [exact B|]. split.
  - intros Act. apply Req. by destruct Act as [-> | [-> | ->]].
  - intros Act arg0 rest A.
    refine (proj1 (accepts_volume _ _ _ arg0 rest _ A Acc)).
    by destruct Act as [-> | [-> | [-> | [-> | [-> | ->]]]]].
Qed.

(** X15: what a handler reads from an accepted volume or brightness
    descriptor with arguments: [ArgToInt(0)] answers an amount from 0 to
    100, which is 0 only for SetVolume and SetBrightness, and
    [VolumeArgType] answers [Units] on one argument and an integer from 0
    to 2 on more. *)
Theorem validated_reads_in_range (w w' : World) :
  Valid HotkeysToString w = Some (true, w') ->
  action (this w) = IncreaseVolume \/ action (this w) = DecreaseVolume
  \/ action (this w) = SetVolume \/ action (this w) = IncreaseBrightness
  \/ action (this w) = DecreaseBrightness \/ action (this w) = SetBrightness ->
  args (this w) <> [] ->
  (exists amount w1,
      ArgToInt 0 w' = Some (amount, w1)
      /\ 0 <= amount <= 100
      /\ (amount = 0 ->
          action (this w) = SetVolume \/ action (this w) = SetBrightness))
  /\ (exists kind w2,
      VolumeArgType w' = Some (kind, w2)
      /\ (length (args (this w)) = 1%nat -> kind = Units)
      /\ ((1 < length (args (this w)))%nat -> 0 <= kind <= 2)).
Proof.
  intros Run Act NE.
  destruct (Valid_verdict w) as (w1 & Run1 & ((_ & _ & Ar & _) & V & _) & _).
  rewrite Run in Run1. injection Run1 as Acc <-. symmetry in Acc.
  rewrite !as_int_view in Acc.
  destruct (args (this w)) as [|arg0 rest] eqn:A; [done|].
  assert (is_case [IncreaseVolume; DecreaseVolume; SetVolume;
                   IncreaseBrightness; DecreaseBrightness; SetBrightness]
            (action (this w)) = true) as Vol
    by (destruct Act as [-> | [-> | [-> | [-> | [-> | ->]]]]]; reflexivity).
  destruct (accepts_volume _ _ _ arg0 rest Vol A Acc) as (_ & Rng & Nz & Ty).
  split.
  - eexists _, _. split; [apply ArgToInt_view; rewrite Ar; simpl; lia|].
    rewrite V. split; assumption.
  - rewrite VolumeArgType_run, Ar.
    destruct rest as [|arg1 rest'].
    + eexists _, _. split; [reflexivity|]. split; [done | simpl; lia].
    + eexists _, _. split; [apply ArgToInt_view; rewrite Ar; simpl; lia|].
      rewrite V. split; [discriminate|]. intros _. by apply Ty.
Qed.

End Verdict.

Lemma Valid_invalid_action_witness :
  keyCombination (this (mkWorld (configured 65601 18 ["5"]) [])) > 0
  /\ ActionNames_size < action (this (mkWorld (configured 65601 18 ["5"]) []))
  /\ Valid sample_HotkeysToString (mkWorld (configured 65601 18 ["5"]) [])
     = Some (false,
             mkWorld (configured 65601 18 ["5"])
               ["Invalid hotkey: Win+A -> (none) [ '5' ]" +:+ LF +:+ "Invalid action"]).
Proof.
  assert (ActionNames_size < action (this (mkWorld (configured 65601 18 ["5"]) [])))
    as Act by (vm_compute; reflexivity).
  split; [simpl; lia|]. split; [exact Act|].
  apply (Valid_invalid_action sample_HotkeysToString
           (mkWorld (configured 65601 18 ["5"]) [])).
  - simpl. lia.
  - right. exact Act.
Defined.

Lemma Valid_unchecked_actions_witness :
  keyCombination (this (mkWorld (configured 65601 VirtualKey []) [])) > 0
  /\ Valid sample_HotkeysToString (mkWorld (configured 65601 VirtualKey []) [])
     = Some (true, mkWorld (configured 65601 VirtualKey []) []).
Proof.
  split; [simpl; lia|].
  apply (Valid_unchecked_actions sample_HotkeysToString
           (mkWorld (configured 65601 VirtualKey []) [])).
  - simpl. lia.
  - simpl. tauto.
Defined.

Lemma Valid_repeatable_witness :
  Valid sample_HotkeysToString volume_5_caching = Some (true, volume_5_cached)
  /\ exists w'', Valid sample_HotkeysToString volume_5_cached = Some (true, w'').
Proof.
  assert (Valid sample_HotkeysToString volume_5_caching = Some (true, volume_5_cached))
    as Run by (vm_compute; reflexivity).
  split; [exact Run|].
  exact (Valid_repeatable sample_HotkeysToString _ _ _ Run).
Defined.

Lemma Valid_sound_witness :
  Valid sample_HotkeysToString volume_50_percent = Some (true, volume_50_percent)
  /\ keyCombination (this volume_50_percent) > 0
  /\ 0 <= action (this volume_50_percent) <= ActionNames_size.
Proof.
  assert (Valid sample_HotkeysToString volume_50_percent
          = Some (true, volume_50_percent)) as Run by (vm_compute; reflexivity).
  split; [exact Run|].
  destruct (Valid_sound sample_HotkeysToString _ _ Run) as (K & B & _).
  split; [exact K | exact B].
Defined.

Lemma validated_reads_in_range_witness :
  Valid sample_HotkeysToString volume_50_percent = Some (true, volume_50_percent)
  /\ action (this volume_50_percent) = IncreaseVolume
  /\ args (this volume_50_percent) <> []
  /\ (exists amount w1,
        ArgToInt 0 volume_50_percent = Some (amount, w1) /\ 0 <= amount <= 100)
  /\ (exists kind w2,
        VolumeArgType volume_50_percent = Some (kind, w2) /\ 0 <= kind <= 2).
Proof.
  assert (Valid sample_HotkeysToString volume_50_percent
          = Some (true, volume_50_percent)) as Run by (vm_compute; reflexivity).
  split; [exact Run|]. split; [reflexivity|]. split; [discriminate|].
  destruct (validated_reads_in_range sample_HotkeysToString _ _ Run
              (or_introl eq_refl) ltac:(discriminate))
    as [(amount & w1 & R0 & Rng & _) (kind & w2 & RK & _ & Ty)].
  split.
  - exists amount, w1. split; [exact R0 | exact Rng].
  - exists kind, w2. split; [exact RK|]. apply Ty. simpl. lia.
Defined.

(** A stale cache decides the verdict: the argument is "5" when it is
    validated and cached, "abc" afterwards, and the binding is still
    accepted until the cache is cleared. *)
Example Valid_on_stale_cache :
  option_map fst
    ((a <- Valid sample_HotkeysToString ;;
      assign_args ["abc"] ;;
      b <- Valid sample_HotkeysToString ;;
      ClearArgCache ;;
      c <- Valid sample_HotkeysToString ;;
      ret (a, b, c)) volume_5_caching)
  = Some (true, true, false).
Proof. vm_compute. reflexivity. Qed.
